(** * groq-proxy: the forwarding handler of [src/groq.ts]

    A shallow embedding of [handleRequest], [handleOptions] and [mainHandler]
    together with the part of the web platform they run on (the Fetch
    Standard's [Headers] and [Response] classes, the URL [search] getter,
    [console] and [fetch]), and the properties of the handler stated by the
    specification. *)

From Stdlib Require Import String Ascii List ZArith Bool Lia Permutation.
From Stdlib Require Import DecimalString.
Import ListNotations.
Open Scope string_scope.

(** ** JavaScript values and completions *)

Module Js.

(** The values a [catch (error)] clause can bind, as far as line 88 of the
    source can tell them apart: [error.message] throws on [undefined] and
    [null], is [undefined] on any other primitive (a string, a number, a
    boolean, given here by its text), and is the [message] property on an
    object: [None] when the object has none, the string otherwise (an
    [Error] has a string there; other types of [message] are left out). *)
Inductive value : Type :=
| Undefined
| Null
| Prim (text : string)
| Obj (message : option string).

(** A completion record: a normal value or a thrown one. An [async]
    function that throws returns a rejected promise, modelled as [Throw]. *)
Inductive completion (A : Type) : Type :=
| Normal (a : A)
| Throw (v : value).
Arguments Normal {A} a.
Arguments Throw {A} v.


(** [v.message]: a TypeError on [undefined] and [null]. *)
Definition get_message (v : value) : completion (option string) :=
  match v with
  | Undefined =>
      Throw (Obj (Some "Cannot read properties of undefined (reading 'message')"))
  | Null =>
      Throw (Obj (Some "Cannot read properties of null (reading 'message')"))
  | Prim _ => Normal None
  | Obj m => Normal m
  end.

(** [m || fallback] on a string-or-undefined operand: the empty string and
    [undefined] are falsy. *)
Definition or_else (m : option string) (fallback : string) : string :=
  match m with
  | None => fallback
  | Some s => if (s =? "") then fallback else s
  end.

(** The decimal rendering of an integer inside a template literal. *)
Definition number_to_string (z : Z) : string :=
  NilZero.string_of_int (Z.to_int z).

End Js.

(** ** The [Headers] class

    The algorithms are those of the Fetch Standard on header lists (get,
    append, set, sort and combine, fill). A header list is a list of
    name/value pairs in arrival order; names keep the case they were given
    and are compared byte-case-insensitively.

    A [Headers] object holds every value normalized, that is without
    leading or trailing HTTP whitespace: [append] and [set] normalize what
    they store. A list of this type is read as the object built from its
    lines, so a line whose text is not normalized (as a request or an
    upstream answer may be written down) holds the normalized text; on the
    lists [append] and [set] produce that reading is the identity.

    Names and values are taken as valid (a token, no NUL, CR or LF): every
    name and value this program hands to [set] or [append] is a literal of
    the source or comes out of another [Headers] object, so the validation
    of [set] and [append] never throws and is not modelled. *)

Module Headers.

Definition header : Type := (string * string)%type.
Definition t : Type := list header.

Definition lower_ascii (c : ascii) : ascii :=
  let n := nat_of_ascii c in
  if ((65 <=? n) && (n <=? 90))%nat then ascii_of_nat (n + 32) else c.

(** [byteLowerCase], which is also what [String.prototype.toLowerCase]
    does on the ASCII tokens header names are. *)
Fixpoint byteLowerCase (s : string) : string :=
  match s with
  | EmptyString => EmptyString
  | String c r => String (lower_ascii c) (byteLowerCase r)
  end.

Definition name_eqb (a b : string) : bool :=
  (byteLowerCase a =? byteLowerCase b).

Definition matches (name : string) (h : header) : bool :=
  name_eqb (fst h) name.

(** HTTP whitespace: tab, line feed, carriage return, space. *)
Definition is_http_whitespace (c : ascii) : bool :=
  existsb (Ascii.eqb c) ["009"%char; "010"%char; "013"%char; " "%char].

Fixpoint strip_leading (s : string) : string :=
  match s with
  | EmptyString => EmptyString
  | String c r => if is_http_whitespace c then strip_leading r else s
  end.

Fixpoint strip_trailing (s : string) : string :=
  match s with
  | EmptyString => EmptyString
  | String c r =>
      match strip_trailing r with
      | EmptyString => if is_http_whitespace c then EmptyString
                       else String c EmptyString
      | r' => String c r'
      end
  end.

(** "Normalize" a value: remove leading and trailing HTTP whitespace. *)
Definition normalize (value : string) : string :=
  strip_trailing (strip_leading value).

(** The value a header holds. *)
Definition value_of (h : header) : string := normalize (snd h).

(** All values stored under [name], in order. *)
Definition values (name : string) (l : t) : list string :=
  map value_of (filter (matches name) l).

Definition has (name : string) (l : t) : bool :=
  existsb (matches name) l.

(** [get]: the values under [name] joined with 0x2C 0x20, [null] if none. *)
Definition get (name : string) (l : t) : option string :=
  match values name l with
  | [] => None
  | vs => Some (String.concat ", " vs)
  end.

Definition getSetCookie (l : t) : list string := values "set-cookie" l.

(** [append]: the value is normalized, and the new pair takes the casing
    of the first header already stored under the name. *)
Definition append (name value : string) (l : t) : t :=
  let value := normalize value in
  let name' :=
    match find (matches name) l with
    | Some h => fst h
    | None => name
    end in
  (l ++ [(name', value)])%list.

Definition remove (name : string) (l : t) : t :=
  filter (fun h => negb (matches name h)) l.

(** "Set" a header in a list: overwrite the first header stored under the
    name and drop the others; append when there is none. *)
Fixpoint set_header (name value : string) (l : t) : t :=
  match l with
  | [] => [(name, value)]
  | h :: rest =>
      if matches name h
      then (fst h, value) :: remove name rest
      else h :: set_header name value rest
  end.

(** [set]: the value is normalized, then set in the list. *)
Definition set (name value : string) (l : t) : t :=
  set_header name (normalize value) l.

(** "Convert header names to a sorted-lowercase set". *)
Fixpoint insert_sorted (x : string) (l : list string) : list string :=
  match l with
  | [] => [x]
  | y :: r => if String.leb x y then x :: l else y :: insert_sorted x r
  end.

Definition sort_names (l : list string) : list string :=
  fold_right insert_sorted [] l.

Definition sorted_lowercase_names (l : t) : list string :=
  sort_names (nodup string_dec (map (fun h => byteLowerCase (fst h)) l)).

(** What the iterator yields for one lowercase name: every [set-cookie]
    value on its own, any other name once with its combined value. *)
Definition entries_of (l : t) (name : string) : list header :=
  if (name =? "set-cookie")
  then map (fun v => (name, v)) (values name l)
  else match get name l with
       | Some v => [(name, v)]
       | None => []
       end.

(** [entries()]: "sort and combine". *)
Definition entries (l : t) : list header :=
  flat_map (entries_of l) (sorted_lowercase_names l).

(** "Fill" a header list from a sequence of pairs or a record literal. *)
Definition fill (init : list header) (l : t) : t :=
  fold_left (fun acc h => append (fst h) (snd h) acc) init l.

(** [new Headers()] and [new Headers(init)]. *)
Definition empty : t := [].
Definition new (init : list header) : t := fill init empty.

End Headers.

(** ** The rest of the platform: URLs, bodies, requests and responses *)

Module Platform.

Import Js.

(** The components of [new URL(request.url)] the handler reads. [query] is
    [None] when the URL has no [?] part. *)
Record URL : Type := { pathname : string; query : option string }.

(** The [search] getter: empty when the query is null or empty, otherwise
    [?] followed by the query. *)
Definition search (u : URL) : string :=
  match query u with
  | None => ""
  | Some q => if (q =? "") then "" else "?" ++ q
  end.

(** A [ReadableStream] of bytes, as the chunks it delivers. The [body]
    getter of a request or a response is a stream or [null]. *)
Definition ReadableStream : Type := list string.

(** A [BodyInit] as this program passes it: a string or a stream. *)
Inductive BodyInit : Type :=
| BodyText (s : string)
| BodyStream (rs : ReadableStream).

(** "Extract a body": the stream, and a content type for a string only. *)
Definition body_stream (b : BodyInit) : ReadableStream :=
  match b with
  | BodyText s => [s]
  | BodyStream rs => rs
  end.

Definition body_type (b : BodyInit) : option string :=
  match b with
  | BodyText _ => Some "text/plain;charset=UTF-8"
  | BodyStream _ => None
  end.

Record Request : Type := {
  req_method : string;
  req_url : URL;
  req_headers : Headers.t;
  req_body : option ReadableStream
}.

Record Response : Type := {
  status : Z;
  statusText : string;
  resp_headers : Headers.t;
  resp_body : option ReadableStream
}.

(** The second argument of [new Response]; [init_headers] is the sequence
    of pairs the [headers] member converts to (the properties of a record
    literal in order, the [entries()] of a [Headers] object). *)
Record ResponseInit : Type := {
  init_status : Z;
  init_statusText : string;
  init_headers : list Headers.header
}.

(** The second argument of [fetch]. [ri_body] is [None] when the member is
    absent or [null]. *)
Record RequestInit : Type := {
  ri_method : string;
  ri_headers : Headers.t;
  ri_redirect : string;
  ri_body : option BodyInit
}.

(** Deno's status check in "initialize a response". *)
Definition status_ok (s : Z) : bool :=
  ((s =? 101) || ((200 <=? s) && (s <=? 599)))%Z.

Definition range_error (s : Z) : value :=
  Obj (Some ("The status provided (" ++ number_to_string s
             ++ ") is not equal to 101 and outside the range [200, 599]")).

(** [new Response(body, init)]: a RangeError on a status outside the
    accepted range; the header list is filled from [init.headers]; a body
    with a content type adds [Content-Type] unless one is present. The
    constructor's two other checks (the status text is a reason phrase, a
    null-body status has no body) cannot fail at any call site of the
    source: the literal calls pass no status text and a body only with 200
    and 500, and [fetch] hands out a canonical reason phrase and a [null]
    body for every null-body status. *)
Definition new_Response (body : option BodyInit) (init : ResponseInit)
  : completion Response :=
  if status_ok (init_status init) then
    let hs := Headers.fill (init_headers init) Headers.empty in
    let hs :=
      match body with
      | Some b =>
          match body_type b with
          | Some ty =>
              if Headers.has "Content-Type" hs then hs
              else Headers.append "Content-Type" ty hs
          | None => hs
          end
      | None => hs
      end in
    Normal {| status := init_status init;
              statusText := init_statusText init;
              resp_headers := hs;
              resp_body := option_map body_stream body |}
  else Throw (range_error (init_status init)).

(** What a run of the handler does to the outside, in order. *)
Inductive event : Type :=
| ConsoleLog (line : string)
| ConsoleError (line : string) (error : value)
| FetchCall (target : string) (init : RequestInit).

(** What the outside answers: the clock's [toISOString()] and the outcome
    of a [fetch] call, a response or a thrown value. *)
Record World : Type := {
  now_iso : string;
  net : string -> RequestInit -> completion Response
}.

(** The handler's computations: they read the world, extend the trace of
    events, and complete normally or throw. *)
Definition io (A : Type) : Type :=
  World -> list event -> completion A * list event.

Definition ret {A} (a : A) : io A := fun _ tr => (Normal a, tr).

Definition bind {A B} (c : io A) (k : A -> io B) : io B :=
  fun w tr =>
    match c w tr with
    | (Normal a, tr') => k a w tr'
    | (Throw v, tr') => (Throw v, tr')
    end.

Definition lift {A} (c : completion A) : io A := fun _ tr => (c, tr).

(** [try { c } catch (error) { h error }]. *)
Definition try_catch {A} (c : io A) (h : value -> io A) : io A :=
  fun w tr =>
    match c w tr with
    | (Normal a, tr') => (Normal a, tr')
    | (Throw v, tr') => h v w tr'
    end.

Definition emit (e : event) : io unit :=
  fun _ tr => (Normal tt, (tr ++ [e])%list).

Definition console_log (line : string) : io unit := emit (ConsoleLog line).

Definition console_error (line : string) (error : value) : io unit :=
  emit (ConsoleError line error).

(** [new Date().toISOString()]. *)
Definition Date_toISOString : io string := fun w tr => (Normal (now_iso w), tr).

(** [await fetch(target, init)]: the call is recorded, the world decides. *)
Definition fetch (target : string) (init : RequestInit) : io Response :=
  fun w tr => (net w target init, (tr ++ [FetchCall target init])%list).

Definition run {A} (c : io A) (w : World) : completion A * list event :=
  c w [].

(** The [fetch] calls, the [console.log] lines and the [console.error]
    lines of a trace. *)
Definition fetch_calls (tr : list event) : list (string * RequestInit) :=
  flat_map (fun e => match e with FetchCall t i => [(t, i)] | _ => [] end) tr.

Definition log_lines (tr : list event) : list string :=
  flat_map (fun e => match e with ConsoleLog l => [l] | _ => [] end) tr.

Definition error_lines (tr : list event) : list (string * value) :=
  flat_map (fun e => match e with ConsoleError l v => [(l, v)] | _ => [] end) tr.

(** Everything written to the console, by [console.log] or
    [console.error]. *)
Definition console_output (tr : list event) : list event :=
  filter (fun e => match e with FetchCall _ _ => false | _ => true end) tr.

End Platform.

Declare Scope io_scope.
Delimit Scope io_scope with io.
Notation "x <- c ;; k" := (Platform.bind c (fun x => k))
  (at level 61, c at next level, right associativity) : io_scope.
Notation "c ;; k" := (Platform.bind c (fun _ => k))
  (at level 61, right associativity) : io_scope.

(** ** The program: [src/groq.ts] *)

Module Proxy.

Import Js Platform.

Record Config : Type := {
  port : Z;
  logRequests : bool;
  groqApiEndpoint : string
}.

(** Lines 8-12. *)
Definition CONFIG : Config :=
  {| port := 8080;
     logRequests := true;
     groqApiEndpoint := "https://api.groq.com" |}.

Definition dq : string := String "034"%char EmptyString.
Definition nl : string := String "010"%char EmptyString.

(** The template literal of lines 20-32, line by line. *)
Definition landing_page : string :=
  String.concat nl
    [ "";
      "      <!DOCTYPE html>";
      "      <html lang=" ++ dq ++ "en" ++ dq ++ ">";
      "      <head>";
      "        <meta charset=" ++ dq ++ "UTF-8" ++ dq ++ ">";
      "        <title>Groq API Proxy</title>";
      "      </head>";
      "      <body>";
      "        <h1>Groq API Proxy is Running!</h1>";
      "        <p>This proxy is configured to forward requests to the Groq API.</p>";
      "      </body>";
      "      </html>";
      "    " ].

Definition cors_methods : string := "GET, POST, PUT, DELETE, OPTIONS".

(** Lines 52-54, the body of the loop: [set] unless the lowercased key is
    [host]. *)
Definition copy_step (headers : Headers.t) (entry : Headers.header) : Headers.t :=
  let '(key, value) := entry in
  if negb (Headers.byteLowerCase key =? "host")
  then Headers.set key value headers
  else headers.

(** Lines 47-55: a fresh [Headers], then the loop over the entries of the
    inbound headers. *)
Definition copy_request_headers (inbound : Headers.t) : Headers.t :=
  fold_left copy_step (Headers.entries inbound) Headers.empty.

(** [['GET', 'HEAD'].includes(m)]. *)
Definition is_get_or_head (m : string) : bool :=
  existsb (String.eqb m) ["GET"; "HEAD"].

(** Lines 58-67. *)
Definition fetchOptions (request : Request) : RequestInit :=
  {| ri_method := req_method request;
     ri_headers := copy_request_headers (req_headers request);
     ri_redirect := "follow";
     ri_body := if negb (is_get_or_head (req_method request))
                then option_map BodyStream (req_body request)
                else None |}.

(** Lines 73-78. *)
Definition responseHeaders (response : Response) : Headers.t :=
  Headers.set "Access-Control-Allow-Headers" "*"
    (Headers.set "Access-Control-Allow-Methods" cors_methods
       (Headers.set "Access-Control-Allow-Origin" "*"
          (Headers.new (Headers.entries (resp_headers response))))).

(** Line 87, the text handed to [console.error] before the error. *)
Definition error_line (targetUrl : string) : string :=
  "[ERROR] Failed to fetch " ++ targetUrl ++ ":".

(** Lines 86-95, the [catch] block. *)
Definition on_error (targetUrl : string) (error : value) : io Response :=
  (console_error (error_line targetUrl) error ;;
   message <- lift (get_message error) ;;
   lift (new_Response
           (Some (BodyText ("Proxy Error: " ++ or_else message "Unknown error")))
           {| init_status := 500;
              init_statusText := "";
              init_headers := [("Content-Type", "text/plain");
                               ("Access-Control-Allow-Origin", "*")] |}))%io.

(** Line 39. *)
Definition targetUrl (cfg : Config) (request : Request) : string :=
  let url := req_url request in
  groqApiEndpoint cfg ++ pathname url ++ search url.

(** Line 42, the text handed to [console.log]. *)
Definition request_line (now : string) (request : Request) (targetUrl : string)
  : string :=
  "[" ++ now ++ "] " ++ req_method request ++ " "
  ++ pathname (req_url request) ++ " -> " ++ targetUrl.

(** Lines 14-96. *)
Definition handleRequest (cfg : Config) (request : Request) : io Response :=
  let url := req_url request in
  let pathname := pathname url in
  if (pathname =? "/") || (pathname =? "/index.html") then
    lift (new_Response (Some (BodyText landing_page))
            {| init_status := 200;
               init_statusText := "";
               init_headers := [("Content-Type", "text/html; charset=utf-8")] |})
  else
    let targetUrl := targetUrl cfg request in
    ((if logRequests cfg
      then now <- Date_toISOString ;;
           console_log (request_line now request targetUrl)
      else ret tt) ;;
     try_catch
       (response <- fetch targetUrl (fetchOptions request) ;;
        lift (new_Response (option_map BodyStream (resp_body response))
                {| init_status := status response;
                   init_statusText := statusText response;
                   init_headers := Headers.entries (responseHeaders response) |}))
       (on_error targetUrl))%io.

(** Lines 99-109. *)
Definition handleOptions (_request : Request) : completion Response :=
  new_Response None
    {| init_status := 204;
       init_statusText := "";
       init_headers := [("Access-Control-Allow-Origin", "*");
                        ("Access-Control-Allow-Methods", cors_methods);
                        ("Access-Control-Allow-Headers", "*");
                        ("Access-Control-Max-Age", "86400")] |}.

(** Lines 112-119. *)
Definition mainHandler (cfg : Config) (request : Request) : io Response :=
  if (req_method request =? "OPTIONS")
  then lift (handleOptions request)
  else handleRequest cfg request.

End Proxy.

(** ** Vocabulary of the specification *)

Module Spec.

Import Js Platform Proxy.

(** A forwarded request: one that reaches neither the preflight branch nor
    the landing-page branch. *)
Definition forwarded (request : Request) : bool :=
  negb (req_method request =? "OPTIONS")
  && negb (pathname (req_url request) =? "/")
  && negb (pathname (req_url request) =? "/index.html").

(** The query string of the inbound URL, empty when there is none. *)
Definition query_string (u : URL) : string :=
  match query u with
  | Some q => q
  | None => ""
  end.

(** The trace the handler has produced when [fetch] has answered. *)
Definition forward_trace (cfg : Config) (w : World) (request : Request)
  : list event :=
  ((if logRequests cfg
    then [ConsoleLog (request_line (now_iso w) request (targetUrl cfg request))]
    else [])
   ++ [FetchCall (targetUrl cfg request) (fetchOptions request)])%list.

(** The response of the [catch] block for a given body text. *)
Definition proxy_error (text : string) : Response :=
  {| status := 500;
     statusText := "";
     resp_headers := [("Content-Type", "text/plain");
                      ("Access-Control-Allow-Origin", "*")];
     resp_body := Some [text] |}.

Definition preflight : Response :=
  {| status := 204;
     statusText := "";
     resp_headers := [("Access-Control-Allow-Origin", "*");
                      ("Access-Control-Allow-Methods",
                       "GET, POST, PUT, DELETE, OPTIONS");
                      ("Access-Control-Allow-Headers", "*");
                      ("Access-Control-Max-Age", "86400")];
     resp_body := None |}.

Definition landing : Response :=
  {| status := 200;
     statusText := "";
     resp_headers := [("Content-Type", "text/html; charset=utf-8")];
     resp_body := Some [landing_page] |}.

End Spec.

(** ** Concrete requests and worlds *)

Module Examples.

Import Js Platform Proxy.

Definition chat : Request :=
  {| req_method := "POST";
     req_url := {| pathname := "/openai/v1/chat/completions";
                   query := Some "stream=true" |};
     req_headers := [("Host", "localhost:8080");
                     ("Authorization", "Bearer gsk_test");
                     ("Content-Type", "application/json")];
     req_body := Some ["{}"] |}.

Definition models : Request :=
  {| req_method := "GET";
     req_url := {| pathname := "/openai/v1/models"; query := None |};
     req_headers := [("Host", "localhost:8080"); ("Accept", "*/*")];
     req_body := Some ["ignored"] |}.

(** Two [Set-Cookie] lines on the inbound request. *)
Definition cookies : Request :=
  {| req_method := "POST";
     req_url := {| pathname := "/openai/v1/chat/completions"; query := None |};
     req_headers := [("Host", "localhost:8080");
                     ("Set-Cookie", "a=1");
                     ("Set-Cookie", "b=2")];
     req_body := Some ["{}"] |}.

Definition options : Request :=
  {| req_method := "OPTIONS";
     req_url := {| pathname := "/openai/v1/chat/completions"; query := None |};
     req_headers := [("Origin", "https://app.example")];
     req_body := None |}.

Definition index : Request :=
  {| req_method := "GET";
     req_url := {| pathname := "/index.html"; query := None |};
     req_headers := [];
     req_body := None |}.


Definition rate_limited : Response :=
  {| status := 429;
     statusText := "Too Many Requests";
     resp_headers := [("Content-Type", "application/json");
                      ("Access-Control-Allow-Origin", "https://console.groq.com");
                      ("Set-Cookie", "a=1");
                      ("Set-Cookie", "b=2")];
     resp_body := Some ["{"; "}"] |}.

(** An upstream answer with a status above 599. *)
Definition odd_status : Response :=
  {| status := 600;
     statusText := "";
     resp_headers := [("Content-Type", "text/plain")];
     resp_body := Some ["odd"] |}.

Definition clock : string := "2024-05-01T12:00:00.000Z".

Definition answers (r : Response) : World :=
  {| now_iso := clock; net := fun _ _ => Normal r |}.

Definition fails (e : value) : World :=
  {| now_iso := clock; net := fun _ _ => Throw e |}.

Definition refused : value := Obj (Some "error sending request").

Definition quiet : Config :=
  {| port := 8080; logRequests := false;
     groqApiEndpoint := "https://api.groq.com" |}.

End Examples.

(** ** More requests and worlds *)

Module MoreExamples.

Import Js Platform Proxy.

(** A GET that carries a body, its length, and [Accept] in two casings. *)
Definition get_with_body : Request :=
  {| req_method := "GET";
     req_url := {| pathname := "/openai/v1/models"; query := Some "" |};
     req_headers := [("Host", "localhost:8080");
                     ("Content-Length", "7");
                     ("Accept", "application/json");
                     ("HOST", "other.example");
                     ("ACCEPT", "text/plain")];
     req_body := Some ["ignored"] |}.

(** A world whose [fetch] throws the string [boom]. *)
Definition throws_text : World :=
  {| now_iso := "2024-05-01T12:00:00.000Z";
     net := fun _ _ => Throw (Prim "boom") |}.

(** An upstream answer that names its headers in mixed case. *)
Definition mixed_case : Response :=
  {| status := 200;
     statusText := "OK";
     resp_headers := [("Content-Type", "application/json");
                      ("X-Request-ID", "req_1");
                      ("x-request-id", "req_2")];
     resp_body := Some ["{}"] |}.

(** A request whose last [X-Trace] line is empty. *)
Definition trailing_empty : Request :=
  {| req_method := "HEAD";
     req_url := {| pathname := "/openai/v1/models"; query := None |};
     req_headers := [("Host", "localhost:8080");
                     ("X-Trace", "a");
                     ("Content-Type", "text/plain");
                     ("x-trace", "")];
     req_body := None |}.

(** An upstream answer whose last [X-Trace] line is empty. *)
Definition trailing_empty_answer : Response :=
  {| status := 200;
     statusText := "OK";
     resp_headers := [("X-Trace", "a"); ("X-Trace", "")];
     resp_body := None |}.

Definition answers_mixed_case : World :=
  {| now_iso := "2024-05-01T12:00:00.000Z";
     net := fun _ _ => Normal mixed_case |}.

End MoreExamples.

(** ** Facts about header lists *)

Module HeadersFacts.

Import Headers.

Lemma lower_ascii_idem (c : ascii) : lower_ascii (lower_ascii c) = lower_ascii c.
Proof. destruct c as [[] [] [] [] [] [] [] []]; reflexivity. Qed.

Lemma byteLowerCase_idem (s : string) :
  byteLowerCase (byteLowerCase s) = byteLowerCase s.
Proof.
  induction s as [|c s IH]; simpl; [reflexivity|].
  now rewrite lower_ascii_idem, IH.
Qed.

Lemma name_eqb_true (a b : string) :
  name_eqb a b = true <-> byteLowerCase a = byteLowerCase b.
Proof. apply String.eqb_eq. Qed.

Lemma name_eqb_false (a b : string) :
  name_eqb a b = false <-> byteLowerCase a <> byteLowerCase b.
Proof. apply String.eqb_neq. Qed.

Lemma name_eqb_spec (a b : string) :
  reflect (byteLowerCase a = byteLowerCase b) (name_eqb a b).
Proof. apply String.eqb_spec. Qed.

(** Decide every comparison of names in the goal; the branches left are
    closed when the comparisons contradict each other or agree outright. *)
Ltac name_cases :=
  repeat match goal with
         | |- context [name_eqb ?a ?b] => destruct (name_eqb_spec a b)
         end;
  try congruence; try reflexivity.

Lemma name_eqb_refl (a : string) : name_eqb a a = true.
Proof. apply String.eqb_refl. Qed.

Lemma name_eqb_sym (a b : string) : name_eqb a b = name_eqb b a.
Proof. apply String.eqb_sym. Qed.

Lemma name_eqb_lower_r (a b : string) :
  name_eqb a (byteLowerCase b) = name_eqb a b.
Proof. unfold name_eqb. now rewrite byteLowerCase_idem. Qed.

(** Two names that agree up to case select the same headers. *)
Lemma matches_congr (n m : string) (h : header) :
  byteLowerCase n = byteLowerCase m -> matches n h = matches m h.
Proof. unfold matches, name_eqb. now intros ->. Qed.

(** *** Normalized values *)

Lemma strip_leading_head (s : string) :
  strip_leading s = EmptyString
  \/ exists c r, strip_leading s = String c r /\ is_http_whitespace c = false.
Proof.
  induction s as [|c s IH]; simpl; [now left|].
  destruct (is_http_whitespace c) eqn:W; [exact IH|].
  right. eauto.
Qed.

Lemma strip_trailing_head (c : ascii) (r : string) :
  is_http_whitespace c = false ->
  strip_trailing (String c r) = String c (strip_trailing r).
Proof. intros W. simpl. rewrite W. now destruct (strip_trailing r). Qed.

Lemma strip_trailing_idem (s : string) :
  strip_trailing (strip_trailing s) = strip_trailing s.
Proof.
  induction s as [|c s IH]; simpl; [reflexivity|].
  destruct (strip_trailing s) as [|c' r'] eqn:T.
  - destruct (is_http_whitespace c) eqn:W; simpl; now rewrite ?W.
  - cbn [strip_trailing] in *. now rewrite IH.
Qed.

(** Normalizing twice is normalizing once. *)
Lemma normalize_idem (v : string) : normalize (normalize v) = normalize v.
Proof.
  unfold normalize.
  destruct (strip_leading_head v) as [-> | (c & r & -> & W)]; [reflexivity|].
  rewrite (strip_trailing_head c r W). cbn [strip_leading]. rewrite W.
  rewrite <- (strip_trailing_head c r W). apply strip_trailing_idem.
Qed.

(** A normalized value is empty or starts with a byte that is not
    whitespace, and has no whitespace to lose at its end. *)
Lemma normalized_head (v : string) :
  normalize v = v ->
  v = EmptyString
  \/ exists c r, v = String c r /\ is_http_whitespace c = false.
Proof.
  unfold normalize. intros E.
  destruct (strip_leading_head v) as [L | (c & r & L & W)]; rewrite L in E.
  - left. now rewrite <- E.
  - right. rewrite (strip_trailing_head c r W) in E. eauto.
Qed.

Lemma normalized_strip_trailing (v : string) :
  normalize v = v -> strip_trailing v = v.
Proof.
  unfold normalize. intros E. rewrite <- E at 1.
  now rewrite strip_trailing_idem.
Qed.

Lemma append_not_empty (a b : string) :
  b <> EmptyString -> (a ++ b)%string <> EmptyString.
Proof. destruct a; simpl; [auto | discriminate]. Qed.

Lemma strip_trailing_app (a b : string) :
  strip_trailing b <> EmptyString ->
  strip_trailing (a ++ b) = (a ++ strip_trailing b)%string.
Proof.
  intros B. induction a as [|c a IH]; simpl; [reflexivity|].
  rewrite IH.
  destruct (a ++ strip_trailing b)%string eqn:E; [|reflexivity].
  now apply append_not_empty in E.
Qed.

(** Joining normalized values whose last one is not empty leaves no
    whitespace at the end. *)
Lemma strip_trailing_concat (vs : list string) :
  Forall (fun v => normalize v = v) vs ->
  last vs EmptyString <> EmptyString ->
  strip_trailing (String.concat ", " vs) = String.concat ", " vs
  /\ String.concat ", " vs <> EmptyString.
Proof.
  induction vs as [|x [|y r] IH]; intros Nv L.
  - now cbn in L.
  - inversion Nv; subst. cbn in L |- *.
    split; [now apply normalized_strip_trailing | exact L].
  - inversion Nv as [|? ? Nx Nr]; subst.
    destruct (IH Nr L) as [T NE].
    change (String.concat ", " (x :: y :: r))
      with (x ++ ", " ++ String.concat ", " (y :: r))%string.
    assert (B : strip_trailing (", " ++ String.concat ", " (y :: r))
                = (", " ++ String.concat ", " (y :: r))%string)
      by (rewrite strip_trailing_app; rewrite T; auto).
    split.
    + rewrite strip_trailing_app; rewrite B; [reflexivity | discriminate].
    + apply append_not_empty. discriminate.
Qed.

Lemma strip_leading_concat (vs : list string) :
  Forall (fun v => normalize v = v) vs ->
  strip_leading (String.concat ", " vs) = String.concat ", " vs.
Proof.
  intros Nv. destruct vs as [|x [|y r]]; [reflexivity| |].
  - inversion Nv as [|? ? Nx _]; subst. cbn [String.concat].
    destruct (normalized_head x Nx) as [-> | (c & s & -> & W)];
      [reflexivity|]. cbn [strip_leading]. now rewrite W.
  - inversion Nv as [|? ? Nx _]; subst.
    change (String.concat ", " (x :: y :: r))
      with (x ++ ", " ++ String.concat ", " (y :: r))%string.
    destruct (normalized_head x Nx) as [-> | (c & s & -> & W)];
      [reflexivity|]. cbn [String.append strip_leading]. now rewrite W.
Qed.

(** A combined value is already normalized unless it joins several values
    the last of which is empty. *)
Lemma normalize_concat (vs : list string) :
  Forall (fun v => normalize v = v) vs ->
  (length vs <= 1)%nat \/ last vs EmptyString <> EmptyString ->
  normalize (String.concat ", " vs) = String.concat ", " vs.
Proof.
  intros Nv [Len | L].
  - destruct vs as [|x [|y r]]; [reflexivity| |cbn in Len; lia].
    cbn. now inversion Nv.
  - unfold normalize. rewrite strip_leading_concat by exact Nv.
    now apply strip_trailing_concat.
Qed.

Lemma values_congr (n m : string) (l : t) :
  byteLowerCase n = byteLowerCase m -> values n l = values m l.
Proof.
  intros E. unfold values. f_equal.
  apply filter_ext. intros h. now apply matches_congr.
Qed.

Lemma get_congr (n m : string) (l : t) :
  byteLowerCase n = byteLowerCase m -> get n l = get m l.
Proof. intros E. unfold get. now rewrite (values_congr n m l E). Qed.

Lemma values_app (n : string) (l1 l2 : t) :
  values n (l1 ++ l2)%list = (values n l1 ++ values n l2)%list.
Proof. unfold values. now rewrite filter_app, map_app. Qed.

Lemma values_cons (n : string) (h : header) (l : t) :
  values n (h :: l) =
  if name_eqb (fst h) n then normalize (snd h) :: values n l else values n l.
Proof.
  unfold values; simpl. unfold matches at 1.
  now destruct (name_eqb (fst h) n).
Qed.

Lemma has_values (n : string) (l : t) :
  has n l = false <-> values n l = [].
Proof.
  unfold has, values.
  induction l as [|h l IH]; simpl; [tauto|].
  destruct (matches n h); simpl; [split; discriminate | exact IH].
Qed.

Lemma find_matches (n : string) (l : t) (h : header) :
  find (matches n) l = Some h -> name_eqb (fst h) n = true.
Proof. intros F. now apply find_some in F as [_ F]. Qed.

(** Every value read from a list is normalized. *)
Lemma values_normalized (n : string) (l : t) :
  Forall (fun v => normalize v = v) (values n l).
Proof.
  unfold values. apply Forall_forall. intros v Hin.
  apply in_map_iff in Hin as (h & <- & _). apply normalize_idem.
Qed.

Lemma map_normalize_values (n : string) (l : t) :
  map normalize (values n l) = values n l.
Proof.
  unfold values. rewrite map_map. apply map_ext.
  intros h. apply normalize_idem.
Qed.

(** Reading a name gives a normalized value when the name has one line, or
    when its last line is not empty. *)
Lemma get_already_normalized (n : string) (l : t) :
  (length (values n l) <= 1)%nat \/ last (values n l) EmptyString <> EmptyString ->
  option_map normalize (get n l) = get n l.
Proof.
  intros C. unfold get.
  destruct (values n l) as [|v vs] eqn:E; [reflexivity|].
  cbn [option_map]. f_equal. apply normalize_concat; [|exact C].
  rewrite <- E. apply values_normalized.
Qed.

(** [append] adds one value under the name and touches no other. *)
Lemma values_append (n k v : string) (l : t) :
  values n (append k v l) =
  (values n l ++ (if name_eqb k n then [normalize v] else []))%list.
Proof.
  unfold append. rewrite values_app. f_equal.
  rewrite values_cons; cbn [fst snd]. rewrite normalize_idem.
  destruct (find (matches k) l) as [h|] eqn:F; [|reflexivity].
  apply find_matches, name_eqb_true in F.
  unfold name_eqb. now rewrite F.
Qed.

Lemma values_fill (n : string) (init : list header) (l : t) :
  values n (fill init l) = (values n l ++ values n init)%list.
Proof.
  unfold fill. revert l.
  induction init as [|h init IH]; intros l; simpl.
  - now rewrite app_nil_r.
  - rewrite IH, values_append, values_cons, <- app_assoc.
    now destruct (name_eqb (fst h) n).
Qed.

Lemma values_new (n : string) (init : list header) :
  values n (new init) = values n init.
Proof. unfold new, empty. now rewrite values_fill. Qed.

Lemma values_remove (n k : string) (l : t) :
  values n (remove k l) = if name_eqb k n then [] else values n l.
Proof.
  unfold remove.
  induction l as [|h l IH]; simpl; [name_cases|].
  unfold matches at 1.
  destruct (name_eqb_spec (fst h) k); simpl;
    rewrite ?values_cons, IH; name_cases.
Qed.

Lemma values_set_header (n k v : string) (l : t) :
  values n (set_header k v l) =
  if name_eqb k n then [normalize v] else values n l.
Proof.
  induction l as [|h l IH]; simpl.
  - rewrite values_cons; simpl. name_cases.
  - unfold matches at 1.
    destruct (name_eqb_spec (fst h) k);
      rewrite !values_cons, ?values_remove, ?IH; simpl; name_cases.
Qed.

(** [set] leaves exactly one value under the name, the normalized one, and
    touches no other. *)
Lemma values_set (n k v : string) (l : t) :
  values n (set k v l) = if name_eqb k n then [normalize v] else values n l.
Proof.
  unfold set. now rewrite values_set_header, normalize_idem.
Qed.

Create Rewrite HintDb headers.
#[global] Hint Rewrite values_set values_new values_fill values_append : headers.

(** *** Sorting the names *)

Lemma insert_sorted_perm (x : string) (l : list string) :
  Permutation (insert_sorted x l) (x :: l).
Proof.
  induction l as [|y l IH]; simpl; [reflexivity|].
  destruct (String.leb x y); [reflexivity|].
  rewrite IH. apply perm_swap.
Qed.

Lemma sort_names_perm (l : list string) : Permutation (sort_names l) l.
Proof.
  induction l as [|x l IH]; simpl; [reflexivity|].
  rewrite insert_sorted_perm. now constructor.
Qed.

Lemma sorted_lowercase_names_NoDup (l : t) : NoDup (sorted_lowercase_names l).
Proof.
  unfold sorted_lowercase_names.
  eapply Permutation_NoDup; [symmetry; apply sort_names_perm|].
  apply NoDup_nodup.
Qed.

Lemma sorted_lowercase_names_In (l : t) (nm : string) :
  In nm (sorted_lowercase_names l) <->
  exists h, In h l /\ byteLowerCase (fst h) = nm.
Proof.
  unfold sorted_lowercase_names. split.
  - intros H. apply (Permutation_in _ (sort_names_perm _)) in H.
    apply nodup_In, in_map_iff in H as (h & E & Hin). eauto.
  - intros (h & Hin & E).
    apply (Permutation_in _ (Permutation_sym (sort_names_perm _))).
    apply nodup_In, in_map_iff. eauto.
Qed.

Lemma sorted_lowercase_names_lower (l : t) (nm : string) :
  In nm (sorted_lowercase_names l) -> byteLowerCase nm = nm.
Proof.
  intros H. apply sorted_lowercase_names_In in H as (h & _ & <-).
  apply byteLowerCase_idem.
Qed.

Lemma values_nil_iff (n : string) (l : t) :
  values n l = [] <->
  forall h, In h l -> byteLowerCase (fst h) <> byteLowerCase n.
Proof.
  induction l as [|h l IH]; simpl.
  - split; [intros _ ? []|reflexivity].
  - rewrite values_cons. destruct (name_eqb (fst h) n) eqn:E.
    + apply name_eqb_true in E. split; [discriminate|].
      intros H. exfalso. apply (H h); auto.
    + apply name_eqb_false in E. rewrite IH. split.
      * intros H h' [<-|Hin]; auto.
      * intros H h' Hin. apply H; auto.
Qed.

(** *** What [entries()] shows of a header list *)

Lemma values_pairs (n nm : string) (vs : list string) :
  values n (map (fun v => (nm, v)) vs) =
  if name_eqb nm n then map normalize vs else [].
Proof.
  induction vs as [|v vs IH]; simpl.
  - now destruct (name_eqb nm n).
  - rewrite values_cons, IH; simpl. now destruct (name_eqb nm n).
Qed.

Lemma snd_entries_of (l : t) (nm : string) :
  map snd (entries_of l nm) =
  if (nm =? "set-cookie") then values nm l
  else match get nm l with Some v => [v] | None => [] end.
Proof.
  unfold entries_of. destruct (nm =? "set-cookie").
  - rewrite map_map; simpl. apply map_id.
  - now destruct (get nm l).
Qed.

Lemma values_entries_of (l : t) (n nm : string) :
  values n (entries_of l nm) =
  if name_eqb nm n then map normalize (map snd (entries_of l nm)) else [].
Proof.
  rewrite snd_entries_of. unfold entries_of.
  destruct (nm =? "set-cookie").
  - apply values_pairs.
  - destruct (get nm l) as [v|]; [|now destruct (name_eqb nm n)].
    rewrite values_cons; simpl. now destruct (name_eqb nm n).
Qed.

Lemma values_flat_entries (l : t) (n : string) (names : list string) :
  NoDup names ->
  (forall nm, In nm names -> byteLowerCase nm = nm) ->
  values n (flat_map (entries_of l) names) =
  if existsb (String.eqb (byteLowerCase n)) names
  then map normalize (map snd (entries_of l (byteLowerCase n)))
  else [].
Proof.
  induction names as [|nm names IH]; intros ND Low; simpl; [reflexivity|].
  inversion ND as [|? ? Hnot ND']; subst.
  rewrite values_app, values_entries_of, IH by auto using in_cons.
  unfold name_eqb. rewrite (Low nm) by (simpl; auto).
  rewrite (String.eqb_sym nm).
  destruct (String.eqb_spec (byteLowerCase n) nm) as [E|E]; simpl.
  - subst nm.
    assert (existsb (String.eqb (byteLowerCase n)) names = false) as ->.
    { destruct (existsb _ names) eqn:X; [|reflexivity].
      apply existsb_exists in X as (x & Hin & Ex).
      apply String.eqb_eq in Ex. subst x. contradiction. }
    apply app_nil_r.
  - reflexivity.
Qed.

(** The iterator shows every [set-cookie] value separately and every
    other name once, with the value [get] gives; a list filled from it
    holds that value normalized. *)
Lemma values_entries (n : string) (l : t) :
  values n (entries l) =
  if (byteLowerCase n =? "set-cookie") then values n l
  else match get n l with Some v => [normalize v] | None => [] end.
Proof.
  unfold entries.
  rewrite values_flat_entries
    by (eauto using sorted_lowercase_names_NoDup, sorted_lowercase_names_lower).
  assert (Eg : get (byteLowerCase n) l = get n l)
    by (apply get_congr, byteLowerCase_idem).
  assert (Ev : values (byteLowerCase n) l = values n l)
    by (apply values_congr, byteLowerCase_idem).
  destruct (existsb _ _) eqn:X.
  - rewrite snd_entries_of, Eg, Ev.
    destruct (_ =? _); [apply map_normalize_values|].
    now destruct (get n l).
  - assert (V : values n l = []).
    { apply values_nil_iff. intros h Hin E.
      assert (In (byteLowerCase n) (sorted_lowercase_names l)) as Hn
        by (apply sorted_lowercase_names_In; eauto).
      assert (existsb (String.eqb (byteLowerCase n))
                (sorted_lowercase_names l) = true) as Y
        by (apply existsb_exists; eexists; split;
            [exact Hn | apply String.eqb_refl]).
      congruence. }
    unfold get. rewrite V. now destruct (_ =? _).
Qed.

(** Reading a name from the entries gives the normalized combined value
    (for [set-cookie], the values joined as they are). *)
Lemma get_entries (n : string) (l : t) :
  get n (entries l) =
  if (byteLowerCase n =? "set-cookie") then get n l
  else option_map normalize (get n l).
Proof.
  unfold get at 1. rewrite values_entries.
  destruct (byteLowerCase n =? "set-cookie"); [reflexivity|].
  now destruct (get n l).
Qed.

Lemma getSetCookie_entries (l : t) : getSetCookie (entries l) = getSetCookie l.
Proof. unfold getSetCookie. now rewrite values_entries. Qed.

(** The keys the iterator yields are lowercase. *)
Lemma entries_lower (l : t) (h : header) :
  In h (entries l) -> byteLowerCase (fst h) = fst h.
Proof.
  unfold entries. intros H.
  apply in_flat_map in H as (nm & Hnm & Hh).
  apply sorted_lowercase_names_lower in Hnm.
  unfold entries_of in Hh. destruct (nm =? "set-cookie").
  - apply in_map_iff in Hh as (v & <- & _). exact Hnm.
  - destruct (get nm l); [|contradiction].
    destruct Hh as [<-|[]]. exact Hnm.
Qed.

End HeadersFacts.

(** ** How the handler runs *)

Module ProxyFacts.

Import Js Platform Proxy Spec.

Lemma fetch_calls_app (a b : list event) :
  fetch_calls (a ++ b)%list = (fetch_calls a ++ fetch_calls b)%list.
Proof. apply flat_map_app. Qed.

Lemma log_lines_app (a b : list event) :
  log_lines (a ++ b)%list = (log_lines a ++ log_lines b)%list.
Proof. apply flat_map_app. Qed.

Lemma error_lines_app (a b : list event) :
  error_lines (a ++ b)%list = (error_lines a ++ error_lines b)%list.
Proof. apply flat_map_app. Qed.

Lemma forwarded_iff (request : Request) :
  forwarded request = true <->
  (req_method request =? "OPTIONS") = false
  /\ (pathname (req_url request) =? "/") = false
  /\ (pathname (req_url request) =? "/index.html") = false.
Proof.
  unfold forwarded. rewrite !andb_true_iff, !negb_true_iff. tauto.
Qed.

(** The [catch] block: one [console.error], then a 500 response unless
    reading [error.message] throws. *)
Lemma on_error_run (target : string) (v : value) (w : World) (tr : list event) :
  on_error target v w tr =
  (match get_message v with
   | Normal m => Normal (proxy_error ("Proxy Error: " ++ or_else m "Unknown error"))
   | Throw e => Throw e
   end,
   (tr ++ [ConsoleError (error_line target) v])%list).
Proof.
  unfold on_error, bind, console_error, emit, lift.
  destruct (get_message v); reflexivity.
Qed.

(** The forward branch: the optional log line, one [fetch], and then the
    copy of the upstream response or the [catch] block. *)
Lemma run_forward (cfg : Config) (w : World) (request : Request) :
  forwarded request = true ->
  run (mainHandler cfg request) w =
  match net w (targetUrl cfg request) (fetchOptions request) with
  | Normal up =>
      match new_Response (option_map BodyStream (resp_body up))
              {| init_status := status up;
                 init_statusText := statusText up;
                 init_headers := Headers.entries (responseHeaders up) |}
      with
      | Normal r => (Normal r, forward_trace cfg w request)
      | Throw v =>
          on_error (targetUrl cfg request) v w (forward_trace cfg w request)
      end
  | Throw v =>
      on_error (targetUrl cfg request) v w (forward_trace cfg w request)
  end.
Proof.
  intros F. apply forwarded_iff in F as (Hm & Hr & Hi).
  unfold run, mainHandler, handleRequest, forward_trace.
  rewrite Hm, Hr, Hi; cbn [orb].
  unfold bind, try_catch, fetch, lift, ret, Date_toISOString, console_log, emit.
  destruct (logRequests cfg); cbn [app];
    destruct (net w _ _) as [up|v]; try reflexivity;
    destruct (new_Response _ _); reflexivity.
Qed.

Lemma run_options (cfg : Config) (w : World) (request : Request) :
  req_method request = "OPTIONS" ->
  run (mainHandler cfg request) w = (Normal preflight, []).
Proof.
  intros E. unfold run, mainHandler. rewrite E. reflexivity.
Qed.

Lemma run_landing (cfg : Config) (w : World) (request : Request) :
  (req_method request =? "OPTIONS") = false ->
  pathname (req_url request) = "/"
  \/ pathname (req_url request) = "/index.html" ->
  run (mainHandler cfg request) w = (Normal landing, []).
Proof.
  intros Hm [E|E]; unfold run, mainHandler, handleRequest;
    rewrite Hm, E; reflexivity.
Qed.

(** Whatever [fetch] answers, the forward branch calls it once. *)
Lemma forward_fetch_calls (cfg : Config) (w : World) (request : Request) :
  forwarded request = true ->
  fetch_calls (snd (run (mainHandler cfg request) w)) =
  [(targetUrl cfg request, fetchOptions request)].
Proof.
  intros F. rewrite (run_forward cfg w request F).
  assert (T : fetch_calls (forward_trace cfg w request) =
              [(targetUrl cfg request, fetchOptions request)])
    by (unfold forward_trace; destruct (logRequests cfg); reflexivity).
  destruct (net w _ _) as [up|v]; [destruct (new_Response _ _)|];
    rewrite ?on_error_run; simpl snd; rewrite ?fetch_calls_app, T; reflexivity.
Qed.

Lemma search_query_string (u : URL) :
  search u =
  if (query_string u =? "") then "" else "?" ++ query_string u.
Proof. unfold search, query_string. now destruct (query u). Qed.

(** [new Response] on a stream (or no body) and an accepted status. *)
Lemma new_Response_stream (b : option ReadableStream) (init : ResponseInit) :
  status_ok (init_status init) = true ->
  new_Response (option_map BodyStream b) init =
  Normal {| status := init_status init;
            statusText := init_statusText init;
            resp_headers := Headers.fill (init_headers init) Headers.empty;
            resp_body := b |}.
Proof.
  intros S. unfold new_Response. rewrite S. now destruct b.
Qed.

Lemma new_Response_refused (b : option BodyInit) (init : ResponseInit) :
  status_ok (init_status init) = false ->
  new_Response b init = Throw (range_error (init_status init)).
Proof. intros S. unfold new_Response. now rewrite S. Qed.

Lemma status_ok_range (s : Z) : (200 <= s <= 599)%Z -> status_ok s = true.
Proof.
  intros [L U]. unfold status_ok.
  apply Z.leb_le in L. apply Z.leb_le in U. rewrite L, U.
  apply orb_true_r.
Qed.

(** *** The response headers, lines 73-78 *)

Lemma values_responseHeaders (n : string) (up : Response) :
  Headers.values n (responseHeaders up) =
  if Headers.name_eqb "Access-Control-Allow-Headers" n then ["*"]
  else if Headers.name_eqb "Access-Control-Allow-Methods" n then [cors_methods]
  else if Headers.name_eqb "Access-Control-Allow-Origin" n then ["*"]
  else Headers.values n (Headers.entries (resp_headers up)).
Proof.
  unfold responseHeaders. now autorewrite with headers.
Qed.

Lemma get_of_values (n m : string) (l l' : Headers.t) :
  Headers.values n l = Headers.values m l' -> Headers.get n l = Headers.get m l'.
Proof. unfold Headers.get. now intros ->. Qed.

(** A name that is none of the three CORS names reads as in the entries of
    the upstream headers. *)
Lemma get_responseHeaders_other (n : string) (up : Response) :
  Headers.name_eqb n "Access-Control-Allow-Origin" = false ->
  Headers.name_eqb n "Access-Control-Allow-Methods" = false ->
  Headers.name_eqb n "Access-Control-Allow-Headers" = false ->
  Headers.get n (responseHeaders up) =
  Headers.get n (Headers.entries (resp_headers up)).
Proof.
  intros O M H.
  apply get_of_values. rewrite values_responseHeaders.
  rewrite HeadersFacts.name_eqb_sym in O, M, H.
  now rewrite O, M, H.
Qed.



(** *** The request headers, lines 47-55 *)

Lemma copy_request_headers_fold (inbound : Headers.t) :
  copy_request_headers inbound =
  fold_left copy_step (Headers.entries inbound) Headers.empty.
Proof. reflexivity. Qed.

(** A name that is [host] up to case is never written by the loop. *)
Lemma values_copy_host (n : string) (es : list Headers.header) (acc : Headers.t) :
  Headers.name_eqb n "Host" = true ->
  Headers.values n (fold_left copy_step es acc) = Headers.values n acc.
Proof.
  intros Hn. apply HeadersFacts.name_eqb_true in Hn.
  change (Headers.byteLowerCase "Host") with "host" in Hn.
  revert acc. induction es as [|[k v] es IH]; intros acc; [reflexivity|].
  cbn [fold_left]. rewrite IH. unfold copy_step.
  destruct (String.eqb_spec (Headers.byteLowerCase k) "host") as [E|E];
    cbn [negb]; [reflexivity|].
  rewrite HeadersFacts.values_set.
  assert (Headers.name_eqb k n = false) as ->
    by (apply HeadersFacts.name_eqb_false; congruence).
  reflexivity.
Qed.

(** Any other name ends up with the value of its last entry, if any. *)
Lemma values_copy_other (n : string) (es : list Headers.header) (acc : Headers.t) :
  Headers.name_eqb n "Host" = false ->
  Headers.values n (fold_left copy_step es acc) =
  match rev (Headers.values n es) with
  | [] => Headers.values n acc
  | v :: _ => [v]
  end.
Proof.
  intros Hn. apply HeadersFacts.name_eqb_false in Hn.
  change (Headers.byteLowerCase "Host") with "host" in Hn.
  revert acc. induction es as [|[k v] es IH]; intros acc; [reflexivity|].
  cbn [fold_left]. rewrite IH, HeadersFacts.values_cons.
  cbn [fst snd]. unfold copy_step.
  destruct (Headers.name_eqb k n) eqn:Ek.
  - apply HeadersFacts.name_eqb_true in Ek.
    destruct (String.eqb_spec (Headers.byteLowerCase k) "host") as [E|E];
      [congruence|]. cbn [negb].
    rewrite HeadersFacts.values_set.
    assert (Headers.name_eqb k n = true) as ->
      by (apply HeadersFacts.name_eqb_true; congruence).
    cbn [rev]. now destruct (rev (Headers.values n es)).
  - destruct (negb _); [|reflexivity].
    now rewrite HeadersFacts.values_set, Ek.
Qed.

(** No header named [Host], in any casing, is sent upstream. *)
Lemma copy_request_headers_no_host (inbound : Headers.t) (n : string) :
  Headers.name_eqb n "Host" = true ->
  Headers.has n (copy_request_headers inbound) = false.
Proof.
  intros Hn. apply HeadersFacts.has_values.
  rewrite copy_request_headers_fold.
  now rewrite values_copy_host.
Qed.

(** Every name but [host] and [set-cookie] is sent with the value the
    inbound collection has for it, normalized by [set]. *)
Lemma copy_request_headers_get (inbound : Headers.t) (n : string) :
  Headers.name_eqb n "Host" = false ->
  Headers.name_eqb n "Set-Cookie" = false ->
  Headers.get n (copy_request_headers inbound) =
  option_map Headers.normalize (Headers.get n inbound).
Proof.
  intros Hn Hc. unfold Headers.get at 1.
  rewrite copy_request_headers_fold, values_copy_other by exact Hn.
  rewrite HeadersFacts.values_entries.
  change (Headers.byteLowerCase n =? "set-cookie")
    with (Headers.name_eqb n "Set-Cookie"). rewrite Hc.
  now destruct (Headers.get n inbound).
Qed.

(** Of several [set-cookie] values only the last one is sent. *)
Lemma copy_request_headers_set_cookie (inbound : Headers.t) :
  Headers.getSetCookie (copy_request_headers inbound) =
  match rev (Headers.getSetCookie inbound) with
  | [] => []
  | v :: _ => [v]
  end.
Proof.
  unfold Headers.getSetCookie.
  rewrite copy_request_headers_fold, values_copy_other by reflexivity.
  now rewrite HeadersFacts.values_entries.
Qed.

End ProxyFacts.

(** ** The properties of the handler *)

Module HandlerSpec.

Import Js Platform Proxy Spec Examples ProxyFacts.

(** *** Routing *)

(** C1: a request whose method is not OPTIONS and whose path is neither
    [/] nor [/index.html] makes the handler call [fetch] exactly once, on
    the upstream base URL followed by the path, and by [?] and the query
    string when the query is not empty. *)
Theorem forward_target (cfg : Config) (w : World) (request : Request) :
  (req_method request =? "OPTIONS") = false ->
  (pathname (req_url request) =? "/") = false ->
  (pathname (req_url request) =? "/index.html") = false ->
  map fst (fetch_calls (snd (run (mainHandler cfg request) w))) =
  [groqApiEndpoint cfg ++ pathname (req_url request)
   ++ (if (query_string (req_url request) =? "") then ""
       else "?" ++ query_string (req_url request))].
Proof.
  intros Hm Hr Hi.
  rewrite forward_fetch_calls by (apply forwarded_iff; auto).
  unfold targetUrl. now rewrite search_query_string.
Qed.

Lemma forward_target_witness :
  (req_method chat =? "OPTIONS") = false
  /\ (pathname (req_url chat) =? "/") = false
  /\ (pathname (req_url chat) =? "/index.html") = false
  /\ map fst (fetch_calls (snd (run (mainHandler CONFIG chat) (fails refused)))) =
     ["https://api.groq.com/openai/v1/chat/completions?stream=true"].
Proof.
  do 3 (split; [reflexivity|]).
  apply (forward_target CONFIG (fails refused) chat); reflexivity.
Defined.

(** C7: a request with method OPTIONS, whatever its path, headers and
    body, is answered with status 204, no body and exactly the four
    preflight headers, and nothing is sent upstream. *)
Theorem options_preflight (cfg : Config) (w : World) (request : Request) :
  req_method request = "OPTIONS" ->
  run (mainHandler cfg request) w =
  (Normal {| status := 204;
             statusText := "";
             resp_headers :=
               [("Access-Control-Allow-Origin", "*");
                ("Access-Control-Allow-Methods", "GET, POST, PUT, DELETE, OPTIONS");
                ("Access-Control-Allow-Headers", "*");
                ("Access-Control-Max-Age", "86400")];
             resp_body := None |},
   []).
Proof. intros E. now rewrite run_options. Qed.

Lemma options_preflight_witness :
  req_method options = "OPTIONS"
  /\ run (mainHandler CONFIG options) (answers rate_limited) =
     (Normal preflight, []).
Proof.
  split; [reflexivity|].
  apply (options_preflight CONFIG (answers rate_limited) options); reflexivity.
Defined.

(** C8: a request for [/] or [/index.html] whose method is not OPTIONS is
    answered with status 200, [Content-Type: text/html; charset=utf-8] and
    the fixed page, written out here line by line (a line feed between
    lines, byte 34 around [en] and [UTF-8]), the same for every request and
    every world, and nothing is sent upstream. *)
Theorem landing_page_served (cfg : Config) (w : World) (request : Request) :
  (req_method request =? "OPTIONS") = false ->
  pathname (req_url request) = "/"
  \/ pathname (req_url request) = "/index.html" ->
  run (mainHandler cfg request) w =
  (Normal
     {| status := 200;
        statusText := "";
        resp_headers := [("Content-Type", "text/html; charset=utf-8")];
        resp_body :=
          Some
            [String.concat (String "010"%char EmptyString)
               [ "";
                 "      <!DOCTYPE html>";
                 "      <html lang=" ++ String "034"%char "en"
                 ++ String "034"%char ">";
                 "      <head>";
                 "        <meta charset=" ++ String "034"%char "UTF-8"
                 ++ String "034"%char ">";
                 "        <title>Groq API Proxy</title>";
                 "      </head>";
                 "      <body>";
                 "        <h1>Groq API Proxy is Running!</h1>";
                 "        <p>This proxy is configured to forward requests to the Groq API.</p>";
                 "      </body>";
                 "      </html>";
                 "    " ]] |},
   []).
Proof. intros Hm Hp. now rewrite run_landing. Qed.

Lemma landing_page_served_witness :
  (req_method index =? "OPTIONS") = false
  /\ (pathname (req_url index) = "/"
      \/ pathname (req_url index) = "/index.html")
  /\ (exists page,
        run (mainHandler CONFIG index) (fails Null) =
        (Normal {| status := 200;
                   statusText := "";
                   resp_headers := [("Content-Type", "text/html; charset=utf-8")];
                   resp_body := Some [page] |},
         [])
        /\ String.length page = 308
        /\ String.prefix
             (String "010"%char "      <!DOCTYPE html>") page = true).
Proof.
  split; [reflexivity|]. split; [right; reflexivity|].
  eexists. split.
  - apply (landing_page_served CONFIG (fails Null) index);
      [reflexivity | right; reflexivity].
  - split; reflexivity.
Defined.



(** *** Forwarding *)

(** C6: the [fetch] call of a forwarded request carries no body when the
    method is GET or HEAD, even if the inbound request has one, and
    carries the inbound body stream otherwise. *)
Theorem outbound_body (cfg : Config) (w : World) (request : Request) :
  forwarded request = true ->
  let sent :=
    map (fun call => ri_body (snd call))
      (fetch_calls (snd (run (mainHandler cfg request) w))) in
  (req_method request = "GET" \/ req_method request = "HEAD" ->
   sent = [None])
  /\ (req_method request <> "GET" -> req_method request <> "HEAD" ->
      sent = [option_map BodyStream (req_body request)]).
Proof.
  intros F sent. subst sent. rewrite forward_fetch_calls by exact F.
  cbn [map snd fetchOptions ri_body]. unfold is_get_or_head. cbn [existsb].
  split.
  - intros [E|E]; rewrite E; reflexivity.
  - intros G H. apply String.eqb_neq in G, H. now rewrite G, H.
Qed.

Lemma outbound_body_witness :
  forwarded models = true
  /\ req_body models = Some ["ignored"]
  /\ map (fun call => ri_body (snd call))
       (fetch_calls (snd (run (mainHandler CONFIG models) (answers rate_limited)))) =
     [None].
Proof.
  split; [reflexivity|]. split; [reflexivity|].
  apply (outbound_body CONFIG (answers rate_limited) models);
    [reflexivity | left; reflexivity].
Defined.

(** C2: with two [Set-Cookie] lines on the inbound request, the headers
    handed to [fetch] hold only the second: the loop of lines 50-55 uses
    [set], which overwrites the first when the iterator yields the second. *)
Theorem repeated_set_cookie_overwritten :
  Headers.entries (req_headers cookies) =
    [("host", "localhost:8080"); ("set-cookie", "a=1"); ("set-cookie", "b=2")]
  /\ map (fun call => ri_headers (snd call))
       (fetch_calls (snd (run (mainHandler CONFIG cookies) (answers rate_limited)))) =
     [[("set-cookie", "b=2")]]
  /\ Headers.getSetCookie (req_headers cookies) = ["a=1"; "b=2"]
  /\ Headers.getSetCookie (copy_request_headers (req_headers cookies)) = ["b=2"].
Proof. repeat split. Qed.

(** C3, for the statuses [new Response] accepts: when [fetch] answers a
    forwarded request with a status from 200 to 599, the handler returns
    the upstream status, status text and body; each of the three CORS
    names holds exactly its fixed value; the [Set-Cookie] values are the
    upstream ones; every other name reads as it does upstream with the
    whitespace at the ends of the combined value removed, which changes
    nothing when the name has one line upstream or its last line is not
    empty. *)
Theorem upstream_response_copied
    (cfg : Config) (w : World) (request : Request) (up : Response) :
  forwarded request = true ->
  net w (targetUrl cfg request) (fetchOptions request) = Normal up ->
  (200 <= status up <= 599)%Z ->
  exists r,
    fst (run (mainHandler cfg request) w) = Normal r
    /\ status r = status up
    /\ statusText r = statusText up
    /\ resp_body r = resp_body up
    /\ Headers.values "Access-Control-Allow-Origin" (resp_headers r) = ["*"]
    /\ Headers.values "Access-Control-Allow-Methods" (resp_headers r) =
       ["GET, POST, PUT, DELETE, OPTIONS"]
    /\ Headers.values "Access-Control-Allow-Headers" (resp_headers r) = ["*"]
    /\ Headers.getSetCookie (resp_headers r) =
       Headers.getSetCookie (resp_headers up)
    /\ (forall n,
          Headers.name_eqb n "Access-Control-Allow-Origin" = false ->
          Headers.name_eqb n "Access-Control-Allow-Methods" = false ->
          Headers.name_eqb n "Access-Control-Allow-Headers" = false ->
          Headers.name_eqb n "Set-Cookie" = false ->
          Headers.get n (resp_headers r) =
          option_map Headers.normalize (Headers.get n (resp_headers up)))
    /\ (forall n,
          Headers.name_eqb n "Access-Control-Allow-Origin" = false ->
          Headers.name_eqb n "Access-Control-Allow-Methods" = false ->
          Headers.name_eqb n "Access-Control-Allow-Headers" = false ->
          Headers.name_eqb n "Set-Cookie" = false ->
          (length (Headers.values n (resp_headers up)) <= 1)%nat
          \/ last (Headers.values n (resp_headers up)) "" <> "" ->
          Headers.get n (resp_headers r) = Headers.get n (resp_headers up)).
Proof.
  intros F N S.
  rewrite (run_forward cfg w request F), N.
  rewrite new_Response_stream by (apply status_ok_range; exact S).
  eexists. split; [reflexivity|]. cbn [status statusText resp_body resp_headers
                                       init_status init_statusText init_headers].
  assert (V : forall n,
             Headers.values n
               (Headers.fill (Headers.entries (responseHeaders up)) Headers.empty) =
             Headers.values n (Headers.entries (responseHeaders up)))
    by (intros n; now rewrite HeadersFacts.values_fill).
  assert (C : forall n v,
             (Headers.byteLowerCase n =? "set-cookie") = false ->
             Headers.values n (responseHeaders up) = [v] ->
             Headers.values n (Headers.entries (responseHeaders up)) =
             [Headers.normalize v]).
  { intros n v Hc Hv. rewrite HeadersFacts.values_entries, Hc.
    unfold Headers.get. now rewrite Hv. }
  assert (G : forall n,
             Headers.name_eqb n "Access-Control-Allow-Origin" = false ->
             Headers.name_eqb n "Access-Control-Allow-Methods" = false ->
             Headers.name_eqb n "Access-Control-Allow-Headers" = false ->
             Headers.name_eqb n "Set-Cookie" = false ->
             Headers.get n
               (Headers.fill (Headers.entries (responseHeaders up)) Headers.empty) =
             option_map Headers.normalize (Headers.get n (resp_headers up))).
  { intros n O M H K.
    assert (K' : (Headers.byteLowerCase n =? "set-cookie") = false) by exact K.
    transitivity (Headers.get n (Headers.entries (responseHeaders up)));
      [apply get_of_values, V|].
    rewrite HeadersFacts.get_entries, K'.
    rewrite (get_responseHeaders_other n up O M H).
    rewrite HeadersFacts.get_entries, K'.
    destruct (Headers.get n (resp_headers up)); [|reflexivity].
    cbn [option_map]. now rewrite HeadersFacts.normalize_idem. }
  do 3 (split; [reflexivity|]).
  split; [rewrite V; apply (C _ "*"); [reflexivity|];
          now rewrite values_responseHeaders|].
  split; [rewrite V; apply (C _ cors_methods); [reflexivity|];
          now rewrite values_responseHeaders|].
  split; [rewrite V; apply (C _ "*"); [reflexivity|];
          now rewrite values_responseHeaders|].
  split; [|split].
  - unfold Headers.getSetCookie. rewrite V.
    rewrite HeadersFacts.values_entries. cbn [Headers.byteLowerCase].
    change (_ =? "set-cookie") with true. cbv iota.
    rewrite values_responseHeaders.
    now rewrite HeadersFacts.values_entries.
  - exact G.
  - intros n O M H K L. rewrite (G n O M H K).
    now apply HeadersFacts.get_already_normalized.
Qed.

Lemma upstream_response_copied_witness :
  forwarded chat = true
  /\ net (answers rate_limited) (targetUrl CONFIG chat) (fetchOptions chat) =
     Normal rate_limited
  /\ (200 <= status rate_limited <= 599)%Z
  /\ exists r,
       fst (run (mainHandler CONFIG chat) (answers rate_limited)) = Normal r
       /\ status r = 429%Z
       /\ Headers.values "Access-Control-Allow-Origin" (resp_headers r) = ["*"]
       /\ Headers.getSetCookie (resp_headers r) = ["a=1"; "b=2"].
Proof.
  split; [reflexivity|]. split; [reflexivity|]. split; [simpl; lia|].
  destruct (upstream_response_copied CONFIG (answers rate_limited) chat
              rate_limited eq_refl eq_refl)
    as (r & Hr & Hs & _ & _ & Ho & _ & _ & Hc & _); [simpl; lia|].
  exists r. repeat split; assumption.
Defined.

(** What the copy does to a name whose last upstream line is empty: the
    combined value [a, ] comes out as [a,]. *)
Lemma upstream_trailing_empty_line_trimmed :
  exists r,
    fst (run (mainHandler CONFIG chat)
           (answers MoreExamples.trailing_empty_answer)) = Normal r
    /\ Headers.get "X-Trace" (resp_headers MoreExamples.trailing_empty_answer) =
       Some "a, "
    /\ Headers.get "X-Trace" (resp_headers r) = Some "a,".
Proof. eexists. repeat split. Qed.

(** Counterexample to C3 as stated: an upstream status of 600 is refused
    by [new Response], and the caller gets the 500 of the [catch] block. *)
Lemma upstream_status_600_not_copied :
  net (answers odd_status) (targetUrl CONFIG chat) (fetchOptions chat) =
    Normal odd_status
  /\ exists r,
       fst (run (mainHandler CONFIG chat) (answers odd_status)) = Normal r
       /\ status r = 500%Z
       /\ status r <> status odd_status.
Proof.
  split; [reflexivity|].
  eexists. split; [reflexivity|]. split; [reflexivity|]. discriminate.
Qed.

(** *** Failure *)

(** C4: when the [fetch] call of a forwarded request throws an error
    object, the handler answers 500 with [Content-Type: text/plain],
    [Access-Control-Allow-Origin: *] and the body [Proxy Error: ] followed
    by the error's message, or by [Unknown error] when the message is
    missing or empty. [fetch] has been called once. Besides the copy of an
    upstream answer this is the only response the forward branch returns. *)
Theorem transport_failure
    (cfg : Config) (w : World) (request : Request) (message : option string) :
  forwarded request = true ->
  net w (targetUrl cfg request) (fetchOptions request) = Throw (Obj message) ->
  fst (run (mainHandler cfg request) w) =
    Normal {| status := 500;
              statusText := "";
              resp_headers := [("Content-Type", "text/plain");
                               ("Access-Control-Allow-Origin", "*")];
              resp_body :=
                Some ["Proxy Error: "
                      ++ match message with
                         | Some m => if (m =? "") then "Unknown error" else m
                         | None => "Unknown error"
                         end] |}
  /\ fetch_calls (snd (run (mainHandler cfg request) w)) =
     [(targetUrl cfg request, fetchOptions request)]
  /\ (forall w' r,
        fst (run (mainHandler cfg request) w') = Normal r ->
        (exists up,
            net w' (targetUrl cfg request) (fetchOptions request) = Normal up
            /\ status r = status up)
        \/ exists text, r = proxy_error ("Proxy Error: " ++ text)).
Proof.
  intros F N. split; [|split].
  - rewrite (run_forward cfg w request F), N, on_error_run.
    reflexivity.
  - apply forward_fetch_calls, F.
  - intros w' r. rewrite (run_forward cfg w' request F).
    destruct (net w' _ _) as [up|v] eqn:N'.
    + destruct (status_ok (status up)) eqn:S.
      * rewrite new_Response_stream by exact S. cbn [fst].
        intros [= E]; subst r. left. exists up. split; reflexivity.
      * rewrite new_Response_refused by exact S.
        rewrite on_error_run. cbn [fst get_message range_error].
        intros [= E]; subst r. right. eexists. reflexivity.
    + rewrite on_error_run. cbn [fst].
      destruct (get_message v) as [m|e]; [|discriminate].
      intros [= E]; subst r. right. eexists. reflexivity.
Qed.

Lemma transport_failure_witness :
  forwarded chat = true
  /\ net (fails refused) (targetUrl CONFIG chat) (fetchOptions chat) =
     Throw (Obj (Some "error sending request"))
  /\ fst (run (mainHandler CONFIG chat) (fails refused)) =
     Normal (proxy_error "Proxy Error: error sending request").
Proof.
  split; [reflexivity|]. split; [reflexivity|].
  apply (transport_failure CONFIG (fails refused) chat
           (Some "error sending request")); reflexivity.
Defined.





(** *** Console output *)

(** C9, as the code gates it: the flag governs [console.log] only. With
    the flag off no [console.log] line is written, and nothing at all is
    written when the upstream answer is copied; with the flag on a
    forwarded request writes exactly one line, made of the clock's ISO
    timestamp, the method, the path and the target; a request that is not
    forwarded writes nothing; and when [fetch] throws, one [console.error]
    line with the target and the error is written whatever the flag. *)
Theorem console_output_gating (cfg : Config) (w : World) (request : Request) :
  let tr := snd (run (mainHandler cfg request) w) in
  (logRequests cfg = false -> log_lines tr = [])
  /\ (logRequests cfg = false ->
      forall up,
        net w (targetUrl cfg request) (fetchOptions request) = Normal up ->
        (200 <= status up <= 599)%Z ->
        console_output tr = [])
  /\ (logRequests cfg = true -> forwarded request = true ->
      log_lines tr =
      ["[" ++ now_iso w ++ "] " ++ req_method request ++ " "
       ++ pathname (req_url request) ++ " -> " ++ targetUrl cfg request])
  /\ (forwarded request = false -> console_output tr = [])
  /\ (forwarded request = true ->
      forall e,
        net w (targetUrl cfg request) (fetchOptions request) = Throw e ->
        error_lines tr =
        [("[ERROR] Failed to fetch " ++ targetUrl cfg request ++ ":", e)]).
Proof.
  intros tr.
  assert (NF : forwarded request = false -> tr = []).
  { intros F. subst tr.
    destruct (req_method request =? "OPTIONS") eqn:Hm.
    - apply String.eqb_eq in Hm. now rewrite run_options.
    - unfold forwarded in F. rewrite Hm in F. cbn [negb andb] in F.
      rewrite run_landing; auto.
      destruct (String.eqb_spec (pathname (req_url request)) "/"); auto.
      destruct (String.eqb_spec (pathname (req_url request)) "/index.html");
        auto. discriminate. }
  assert (FW : forwarded request = true ->
               tr = forward_trace cfg w request
               \/ exists v,
                   tr = (forward_trace cfg w request
                         ++ [ConsoleError (error_line (targetUrl cfg request)) v])%list).
  { intros F. subst tr. rewrite (run_forward cfg w request F).
    destruct (net w _ _) as [up|v]; [destruct (new_Response _ _)|];
      rewrite ?on_error_run; cbn [snd]; eauto. }
  split; [|split; [|split; [|split]]].
  - intros L. destruct (forwarded request) eqn:F.
    + destruct (FW eq_refl) as [->|(v & ->)];
        rewrite ?log_lines_app; unfold forward_trace; rewrite L; reflexivity.
    + now rewrite NF.
  - intros L up N S. destruct (forwarded request) eqn:F; [|now rewrite NF].
    subst tr. rewrite (run_forward cfg w request F), N.
    rewrite new_Response_stream by (apply status_ok_range; exact S).
    unfold forward_trace. rewrite L. reflexivity.
  - intros L F. destruct (FW F) as [->|(v & ->)];
      rewrite ?log_lines_app; unfold forward_trace; rewrite L; reflexivity.
  - intros F. now rewrite NF.
  - intros F e N. subst tr.
    rewrite (run_forward cfg w request F), N, on_error_run. cbn [snd].
    rewrite error_lines_app. unfold forward_trace.
    destruct (logRequests cfg); reflexivity.
Qed.

(** Counterexample to C9 as stated: with the flag off, a [console.error]
    line is still written when [fetch] throws. *)
Lemma flag_off_error_still_logged :
  logRequests quiet = false
  /\ console_output (snd (run (mainHandler quiet chat) (fails refused))) =
     [ConsoleError
        "[ERROR] Failed to fetch https://api.groq.com/openai/v1/chat/completions?stream=true:"
        refused]
  /\ console_output (snd (run (mainHandler quiet chat) (fails refused))) <> [].
Proof. repeat split. discriminate. Qed.

End HandlerSpec.

(** ** More facts about header lists: the names they hold *)

Module NameFacts.

Import Headers.

Lemma keys_remove (k x : string) (l : t) :
  In x (map fst (remove k l)) -> In x (map fst l).
Proof.
  unfold remove. rewrite !in_map_iff.
  intros (h & E & Hin). apply filter_In in Hin as [Hin _]. eauto.
Qed.

Lemma NoDup_keys_remove (k : string) (l : t) :
  NoDup (map fst l) -> NoDup (map fst (remove k l)).
Proof.
  induction l as [|h l IH]; simpl; intros ND; [constructor|].
  inversion ND as [|? ? Hnot ND']; subst.
  destruct (negb (matches k h)); simpl; auto.
  constructor; auto. intros Hin. apply Hnot. eapply keys_remove, Hin.
Qed.

(** [set] adds no name but its own. *)
Lemma keys_set (k v x : string) (l : t) :
  In x (map fst (set k v l)) -> x = k \/ In x (map fst l).
Proof.
  unfold set. generalize (normalize v). clear v. intros v.
  induction l as [|h l IH]; simpl.
  - intros [<-|[]]. now left.
  - destruct (matches k h); simpl.
    + intros [<-|Hin]; [now right; left|].
      right; right. eapply keys_remove, Hin.
    + intros [<-|Hin]; [now right; left|].
      destruct (IH Hin); auto.
Qed.

(** [set] keeps the names of a list distinct. *)
Lemma NoDup_keys_set (k v : string) (l : t) :
  NoDup (map fst l) -> NoDup (map fst (set k v l)).
Proof.
  induction l as [|h l IH]; intros ND.
  - constructor; [intros []|constructor].
  - inversion ND as [|? ? Hnot ND']; subst.
    unfold set in *. cbn [set_header].
    destruct (matches k h) eqn:M; simpl.
    + constructor; [|now apply NoDup_keys_remove].
      intros Hin. apply Hnot. eapply keys_remove, Hin.
    + constructor; auto.
      intros Hin. apply (keys_set k v) in Hin as [E|Hin]; [|contradiction].
      unfold matches in M. rewrite E, HeadersFacts.name_eqb_refl in M.
      discriminate.
Qed.

Lemma Forall_keys_set (P : string -> Prop) (k v : string) (l : t) :
  P k -> Forall P (map fst l) -> Forall P (map fst (set k v l)).
Proof.
  rewrite !Forall_forall. intros Pk Pl x Hin.
  apply keys_set in Hin as [->|Hin]; auto.
Qed.

(** [append] adds no name but the one given or one already there. *)
Lemma Forall_keys_append (P : string -> Prop) (k v : string) (l : t) :
  P k -> Forall P (map fst l) -> Forall P (map fst (append k v l)).
Proof.
  intros Pk Pl. unfold append. rewrite map_app. apply Forall_app.
  split; [exact Pl|]. constructor; [|constructor]. simpl.
  destruct (find (matches k) l) as [h|] eqn:F; [|exact Pk].
  apply find_some in F as [Hin _].
  rewrite Forall_forall in Pl. apply Pl, in_map, Hin.
Qed.

Lemma Forall_keys_fill (P : string -> Prop) (init : list header) (l : t) :
  Forall P (map fst init) -> Forall P (map fst l) ->
  Forall P (map fst (fill init l)).
Proof.
  unfold fill. revert l.
  induction init as [|h init IH]; intros l Pi Pl; simpl; [exact Pl|].
  inversion Pi; subst. apply IH; [assumption|].
  now apply Forall_keys_append.
Qed.

(** The names the iterator yields are lowercase. *)
Lemma entries_keys_lower (l : t) :
  Forall (fun x => byteLowerCase x = x) (map fst (entries l)).
Proof.
  apply Forall_forall. intros x Hin.
  apply in_map_iff in Hin as (h & <- & Hin).
  eapply HeadersFacts.entries_lower, Hin.
Qed.

End NameFacts.

(** ** More facts about the forward branch *)

Module ForwardFacts.

Import Js Platform Proxy Spec ProxyFacts.

(** The loop of lines 50-55 keeps names lowercase and distinct. *)
Lemma copy_fold_names (es : list Headers.header) (acc : Headers.t) :
  Forall (fun x => Headers.byteLowerCase x = x) (map fst es) ->
  Forall (fun x => Headers.byteLowerCase x = x) (map fst acc) ->
  NoDup (map fst acc) ->
  Forall (fun x => Headers.byteLowerCase x = x)
    (map fst (fold_left copy_step es acc))
  /\ NoDup (map fst (fold_left copy_step es acc)).
Proof.
  revert acc. induction es as [|[k v] es IH]; intros acc Pe Pa ND; [auto|].
  inversion Pe; subst. cbn [fold_left]. apply IH; [assumption| |];
    unfold copy_step; destruct (negb _); auto.
  - now apply NameFacts.Forall_keys_set.
  - now apply NameFacts.NoDup_keys_set.
Qed.

(** What the copied response holds under a CORS name set on lines 76-78. *)
Lemma values_sent (n : string) (up : Response) :
  Headers.values n
    (Headers.fill (Headers.entries (responseHeaders up)) Headers.empty) =
  Headers.values n (Headers.entries (responseHeaders up)).
Proof. now rewrite HeadersFacts.values_fill. Qed.

Lemma get_sent_allow_origin (up : Response) :
  Headers.get "Access-Control-Allow-Origin"
    (Headers.fill (Headers.entries (responseHeaders up)) Headers.empty) =
  Some "*".
Proof.
  unfold Headers.get at 1.
  rewrite values_sent, HeadersFacts.values_entries.
  change (Headers.byteLowerCase "Access-Control-Allow-Origin" =? "set-cookie")
    with false. cbv iota.
  unfold Headers.get. now rewrite values_responseHeaders.
Qed.

(** A request is forwarded, or a preflight, or for the landing page. *)
Lemma routing_cases (request : Request) :
  forwarded request = true
  \/ req_method request = "OPTIONS"
  \/ ((req_method request =? "OPTIONS") = false
      /\ (pathname (req_url request) = "/"
          \/ pathname (req_url request) = "/index.html")).
Proof.
  unfold forwarded.
  destruct (String.eqb_spec (req_method request) "OPTIONS") as [E|E]; auto.
  destruct (String.eqb_spec (pathname (req_url request)) "/"); auto.
  destruct (String.eqb_spec (pathname (req_url request)) "/index.html"); auto.
Qed.

(** The three outcomes of the forward branch. *)
Lemma forward_outcomes (cfg : Config) (w : World) (request : Request) :
  forwarded request = true ->
  (exists up,
      net w (targetUrl cfg request) (fetchOptions request) = Normal up
      /\ status_ok (status up) = true
      /\ run (mainHandler cfg request) w =
         (Normal {| status := status up;
                    statusText := statusText up;
                    resp_headers :=
                      Headers.fill (Headers.entries (responseHeaders up))
                        Headers.empty;
                    resp_body := resp_body up |},
          forward_trace cfg w request))
  \/ (exists up,
         net w (targetUrl cfg request) (fetchOptions request) = Normal up
         /\ status_ok (status up) = false
         /\ run (mainHandler cfg request) w =
            on_error (targetUrl cfg request) (range_error (status up)) w
              (forward_trace cfg w request))
  \/ (exists e,
         net w (targetUrl cfg request) (fetchOptions request) = Throw e
         /\ run (mainHandler cfg request) w =
            on_error (targetUrl cfg request) e w (forward_trace cfg w request)).
Proof.
  intros F. rewrite (run_forward cfg w request F).
  destruct (net w _ _) as [up|e]; [|right; right; eauto].
  destruct (status_ok (status up)) eqn:S.
  - left. exists up. rewrite new_Response_stream by exact S. auto.
  - right; left. exists up. rewrite new_Response_refused by exact S. auto.
Qed.

End ForwardFacts.

(** ** Further properties of the handler *)

Module HandlerExtras.

Import Js Platform Proxy Spec Examples MoreExamples ProxyFacts ForwardFacts.

(** *** The headers handed to [fetch] *)

(** X1: whatever the inbound headers, the headers of the [fetch] call of a
    forwarded request hold nothing under [Host], in any casing. *)
Theorem host_not_forwarded (cfg : Config) (w : World) (request : Request)
    (n : string) :
  forwarded request = true ->
  Headers.name_eqb n "Host" = true ->
  map (fun call => Headers.has n (ri_headers (snd call)))
    (fetch_calls (snd (run (mainHandler cfg request) w))) = [false].
Proof.
  intros F Hn. rewrite forward_fetch_calls by exact F.
  cbn [map snd fetchOptions ri_headers].
  now rewrite copy_request_headers_no_host.
Qed.

Lemma host_not_forwarded_witness :
  forwarded get_with_body = true
  /\ Headers.name_eqb "hOsT" "Host" = true
  /\ Headers.get "host" (req_headers get_with_body) =
     Some "localhost:8080, other.example"
  /\ map (fun call => Headers.has "hOsT" (ri_headers (snd call)))
       (fetch_calls (snd (run (mainHandler CONFIG get_with_body)
                            (answers rate_limited)))) = [false].
Proof.
  do 3 (split; [reflexivity|]).
  apply (host_not_forwarded CONFIG (answers rate_limited) get_with_body "hOsT");
    reflexivity.
Defined.

(** X2: a name that is neither [Host] nor [Set-Cookie] reads in the headers
    of the [fetch] call as it reads in the inbound headers, with the
    whitespace at the ends of that value removed by [set]: absent when
    absent, and the very same value when the name has one inbound line or
    its last inbound line is not empty. *)
Theorem other_headers_forwarded (cfg : Config) (w : World) (request : Request)
    (n : string) :
  forwarded request = true ->
  Headers.name_eqb n "Host" = false ->
  Headers.name_eqb n "Set-Cookie" = false ->
  map (fun call => Headers.get n (ri_headers (snd call)))
    (fetch_calls (snd (run (mainHandler cfg request) w))) =
  [option_map Headers.normalize (Headers.get n (req_headers request))]
  /\ ((length (Headers.values n (req_headers request)) <= 1)%nat
      \/ last (Headers.values n (req_headers request)) "" <> "" ->
      map (fun call => Headers.get n (ri_headers (snd call)))
        (fetch_calls (snd (run (mainHandler cfg request) w))) =
      [Headers.get n (req_headers request)]).
Proof.
  intros F Hn Hc. rewrite forward_fetch_calls by exact F.
  cbn [map snd fetchOptions ri_headers].
  rewrite copy_request_headers_get by assumption.
  split; [reflexivity|].
  intros L. now rewrite HeadersFacts.get_already_normalized.
Qed.

Lemma other_headers_forwarded_witness :
  forwarded trailing_empty = true
  /\ Headers.name_eqb "X-Trace" "Host" = false
  /\ Headers.name_eqb "X-Trace" "Set-Cookie" = false
  /\ Headers.get "X-Trace" (req_headers trailing_empty) = Some "a, "
  /\ map (fun call => Headers.get "X-Trace" (ri_headers (snd call)))
       (fetch_calls (snd (run (mainHandler CONFIG trailing_empty)
                            (answers rate_limited)))) =
     [Some "a,"].
Proof.
  do 4 (split; [reflexivity|]).
  apply (other_headers_forwarded CONFIG (answers rate_limited) trailing_empty
           "X-Trace"); reflexivity.
Defined.

(** X3: of the [Set-Cookie] values of the inbound request the [fetch] call
    carries the last one only; a single value is carried as it is, and none
    when there is none. *)
Theorem last_set_cookie_forwarded (cfg : Config) (w : World) (request : Request) :
  forwarded request = true ->
  map (fun call => Headers.getSetCookie (ri_headers (snd call)))
    (fetch_calls (snd (run (mainHandler cfg request) w))) =
  [match rev (Headers.getSetCookie (req_headers request)) with
   | [] => []
   | v :: _ => [v]
   end].
Proof.
  intros F. rewrite forward_fetch_calls by exact F.
  cbn [map snd fetchOptions ri_headers].
  now rewrite copy_request_headers_set_cookie.
Qed.

Lemma last_set_cookie_forwarded_witness :
  forwarded cookies = true
  /\ map (fun call => Headers.getSetCookie (ri_headers (snd call)))
       (fetch_calls (snd (run (mainHandler CONFIG cookies) (fails refused)))) =
     [["b=2"]].
Proof.
  split; [reflexivity|].
  apply (last_set_cookie_forwarded CONFIG (fails refused) cookies); reflexivity.
Defined.

(** X4: the names of the headers handed to [fetch] are lowercase and
    pairwise distinct, whatever casing and repetition the inbound request
    has. *)
Theorem forwarded_names_lowercase_distinct (inbound : Headers.t) :
  Forall (fun h => Headers.byteLowerCase (fst h) = fst h)
    (copy_request_headers inbound)
  /\ NoDup (map fst (copy_request_headers inbound)).
Proof.
  destruct (copy_fold_names (Headers.entries inbound) Headers.empty) as [L D].
  - apply NameFacts.entries_keys_lower.
  - constructor.
  - constructor.
  - split; [|exact D].
    apply Forall_forall. intros h Hin.
    rewrite Forall_forall in L. apply L, in_map, Hin.
Qed.

(** X5: copying the copied headers again changes nothing a reader of the
    headers can see: under every name the second copy holds the values of
    the first, so a second hop through the same loop forwards what the first
    hop forwarded. *)
Theorem copy_request_headers_idempotent (inbound : Headers.t) (n : string) :
  Headers.values n (copy_request_headers (copy_request_headers inbound)) =
  Headers.values n (copy_request_headers inbound).
Proof.
  destruct (Headers.name_eqb n "Host") eqn:Hn.
  - rewrite !copy_request_headers_fold, !values_copy_host by exact Hn.
    reflexivity.
  - rewrite (copy_request_headers_fold (copy_request_headers inbound)).
    rewrite values_copy_other by exact Hn.
    rewrite HeadersFacts.values_entries. unfold Headers.get.
    assert (V : Headers.values n (copy_request_headers inbound) = []
                \/ exists v,
                    Headers.values n (copy_request_headers inbound) = [v]
                    /\ Headers.normalize v = v).
    { pose proof (HeadersFacts.values_normalized n (copy_request_headers inbound))
        as Nv.
      revert Nv.
      rewrite copy_request_headers_fold, values_copy_other by exact Hn.
      destruct (rev _) as [|v ?]; [now left|].
      intros Nv. right. exists v. split; [reflexivity|]. now inversion Nv. }
    destruct V as [-> | (v & -> & Nv)];
      destruct (Headers.byteLowerCase n =? "set-cookie");
      cbn [rev List.app String.concat]; rewrite ?Nv; reflexivity.
Qed.

(** X6: when the body is left out because the method is GET or HEAD, the
    [Content-Length] and [Content-Type] of the inbound request are handed to
    [fetch] all the same: each reads as the inbound headers read it, with
    the whitespace at the ends of that value removed by [set]. *)
Theorem entity_headers_outlive_body (cfg : Config) (w : World)
    (request : Request) :
  forwarded request = true ->
  req_method request = "GET" \/ req_method request = "HEAD" ->
  map (fun call =>
         (ri_body (snd call),
          Headers.get "Content-Length" (ri_headers (snd call)),
          Headers.get "Content-Type" (ri_headers (snd call))))
    (fetch_calls (snd (run (mainHandler cfg request) w))) =
  [(None,
    option_map Headers.normalize
      (Headers.get "Content-Length" (req_headers request)),
    option_map Headers.normalize
      (Headers.get "Content-Type" (req_headers request)))].
Proof.
  intros F M. rewrite forward_fetch_calls by exact F.
  cbn [map snd fetchOptions ri_headers ri_body].
  rewrite !copy_request_headers_get by reflexivity.
  destruct M as [E|E]; rewrite E; reflexivity.
Qed.

Lemma entity_headers_outlive_body_witness :
  forwarded get_with_body = true
  /\ (req_method get_with_body = "GET" \/ req_method get_with_body = "HEAD")
  /\ req_body get_with_body = Some ["ignored"]
  /\ map (fun call =>
            (ri_body (snd call),
             Headers.get "Content-Length" (ri_headers (snd call)),
             Headers.get "Content-Type" (ri_headers (snd call))))
       (fetch_calls (snd (run (mainHandler CONFIG get_with_body)
                            (answers rate_limited)))) =
     [(None, Some "7", None)].
Proof.
  split; [reflexivity|]. split; [left; reflexivity|]. split; [reflexivity|].
  apply (entity_headers_outlive_body CONFIG (answers rate_limited) get_with_body);
    [reflexivity | left; reflexivity].
Defined.

(** X7: the [fetch] call of a forwarded request has the inbound method as
    it was received, without any change of case, and asks for redirects to
    be followed. *)
Theorem method_and_redirect (cfg : Config) (w : World) (request : Request) :
  forwarded request = true ->
  map (fun call => (ri_method (snd call), ri_redirect (snd call)))
    (fetch_calls (snd (run (mainHandler cfg request) w))) =
  [(req_method request, "follow")].
Proof.
  intros F. now rewrite forward_fetch_calls by exact F.
Qed.

Lemma method_and_redirect_witness :
  forwarded chat = true
  /\ map (fun call => (ri_method (snd call), ri_redirect (snd call)))
       (fetch_calls (snd (run (mainHandler CONFIG chat) throws_text))) =
     [("POST", "follow")].
Proof.
  split; [reflexivity|].
  apply (method_and_redirect CONFIG throws_text chat); reflexivity.
Defined.

(** *** The answers *)

(** X8: every response the handler returns carries
    [Access-Control-Allow-Origin: *], be it the preflight answer, the copy
    of an upstream answer or the 500 of the [catch] block, except the
    landing page, which carries no such header. *)
Theorem allow_origin_on_answers (cfg : Config) (w : World) (request : Request)
    (r : Response) :
  fst (run (mainHandler cfg request) w) = Normal r ->
  Headers.get "Access-Control-Allow-Origin" (resp_headers r) =
  if (req_method request =? "OPTIONS") || forwarded request
  then Some "*" else None.
Proof.
  destruct (routing_cases request) as [F|[E|[Hm Hp]]].
  - rewrite F, orb_true_r.
    destruct (forward_outcomes cfg w request F)
      as [(up & _ & _ & ->)|[(up & _ & _ & ->)|(e & _ & ->)]];
      rewrite ?on_error_run; cbn [fst].
    + intros [= <-]. apply get_sent_allow_origin.
    + intros [= <-]. reflexivity.
    + destruct (get_message e); [|discriminate]. intros [= <-]. reflexivity.
  - rewrite (run_options cfg w request E), E. cbn [fst].
    intros [= <-]. reflexivity.
  - rewrite (run_landing cfg w request Hm Hp). cbn [fst]. intros [= <-].
    unfold forwarded. rewrite Hm.
    destruct Hp as [-> | ->]; reflexivity.
Qed.

Lemma allow_origin_on_answers_witness :
  fst (run (mainHandler CONFIG chat) throws_text) =
    Normal (proxy_error "Proxy Error: Unknown error")
  /\ Headers.get "Access-Control-Allow-Origin"
       (resp_headers (proxy_error "Proxy Error: Unknown error")) = Some "*".
Proof.
  split; [reflexivity|].
  apply (allow_origin_on_answers CONFIG throws_text chat); reflexivity.
Defined.

(** X9: an upstream answer whose status is not 101 and lies outside 200 to
    599 is not passed on: the handler answers 500 with the two headers of
    the [catch] block and a body that starts with [Proxy Error: ], and
    writes one [console.error] line naming the target. *)
Theorem refused_status_becomes_500 (cfg : Config) (w : World)
    (request : Request) (up : Response) :
  forwarded request = true ->
  net w (targetUrl cfg request) (fetchOptions request) = Normal up ->
  status up <> 101%Z ->
  (status up < 200 \/ 599 < status up)%Z ->
  (exists text,
      fst (run (mainHandler cfg request) w) =
      Normal {| status := 500;
                statusText := "";
                resp_headers := [("Content-Type", "text/plain");
                                 ("Access-Control-Allow-Origin", "*")];
                resp_body := Some ["Proxy Error: " ++ text] |})
  /\ map fst (error_lines (snd (run (mainHandler cfg request) w))) =
     ["[ERROR] Failed to fetch " ++ targetUrl cfg request ++ ":"].
Proof.
  intros F N H101 Hr.
  assert (S : status_ok (status up) = false).
  { unfold status_ok. apply orb_false_iff. split.
    - now apply Z.eqb_neq.
    - apply andb_false_iff.
      destruct Hr; [left; apply Z.leb_gt | right; apply Z.leb_gt]; lia. }
  rewrite (run_forward cfg w request F), N.
  rewrite new_Response_refused by exact S. rewrite on_error_run.
  split.
  - eexists. reflexivity.
  - cbn [snd]. rewrite error_lines_app. unfold forward_trace.
    destruct (logRequests cfg); reflexivity.
Qed.

Lemma refused_status_becomes_500_witness :
  forwarded chat = true
  /\ net (answers odd_status) (targetUrl CONFIG chat) (fetchOptions chat) =
     Normal odd_status
  /\ status odd_status <> 101%Z
  /\ (status odd_status < 200 \/ 599 < status odd_status)%Z
  /\ map fst (error_lines (snd (run (mainHandler CONFIG chat) (answers odd_status)))) =
     ["[ERROR] Failed to fetch https://api.groq.com/openai/v1/chat/completions?stream=true:"].
Proof.
  split; [reflexivity|]. split; [reflexivity|].
  split; [discriminate|]. split; [right; reflexivity|].
  apply (refused_status_becomes_500 CONFIG (answers odd_status) chat odd_status);
    [reflexivity | reflexivity | discriminate | right; reflexivity].
Defined.

(** X10: when [fetch] throws a primitive that is neither [null] nor
    [undefined], a string for instance, its text is not reported: the body
    of the 500 answer is [Proxy Error: Unknown error]. *)
Theorem thrown_primitive_unknown_error (cfg : Config) (w : World)
    (request : Request) (text : string) :
  forwarded request = true ->
  net w (targetUrl cfg request) (fetchOptions request) = Throw (Prim text) ->
  fst (run (mainHandler cfg request) w) =
  Normal {| status := 500;
            statusText := "";
            resp_headers := [("Content-Type", "text/plain");
                             ("Access-Control-Allow-Origin", "*")];
            resp_body := Some ["Proxy Error: Unknown error"] |}.
Proof.
  intros F N.
  now rewrite (run_forward cfg w request F), N, on_error_run.
Qed.

Lemma thrown_primitive_unknown_error_witness :
  forwarded chat = true
  /\ net throws_text (targetUrl CONFIG chat) (fetchOptions chat) =
     Throw (Prim "boom")
  /\ fst (run (mainHandler CONFIG chat) throws_text) =
     Normal (proxy_error "Proxy Error: Unknown error").
Proof.
  split; [reflexivity|]. split; [reflexivity|].
  apply (thrown_primitive_unknown_error CONFIG throws_text chat "boom");
    reflexivity.
Defined.

(** X11: the copy of an upstream answer names its headers in lowercase, and
    holds every name other than [Set-Cookie] at most once: repeated
    upstream lines come out as one. *)
Theorem copied_names_lowercase_merged (cfg : Config) (w : World)
    (request : Request) (up : Response) :
  forwarded request = true ->
  net w (targetUrl cfg request) (fetchOptions request) = Normal up ->
  status_ok (status up) = true ->
  exists r,
    fst (run (mainHandler cfg request) w) = Normal r
    /\ Forall (fun h => Headers.byteLowerCase (fst h) = fst h) (resp_headers r)
    /\ forall n,
         Headers.name_eqb n "Set-Cookie" = false ->
         (length (Headers.values n (resp_headers r)) <= 1)%nat.
Proof.
  intros F N S.
  rewrite (run_forward cfg w request F), N.
  rewrite new_Response_stream by exact S.
  eexists. split; [reflexivity|]. cbn [resp_headers init_headers]. split.
  - assert (L : Forall (fun x => Headers.byteLowerCase x = x)
                  (map fst (Headers.fill (Headers.entries (responseHeaders up))
                              Headers.empty)))
      by (apply NameFacts.Forall_keys_fill;
          [apply NameFacts.entries_keys_lower | constructor]).
    apply Forall_forall. intros h Hin.
    rewrite Forall_forall in L. apply L, in_map, Hin.
  - intros n Hc. rewrite values_sent, HeadersFacts.values_entries.
    change (Headers.byteLowerCase n =? "set-cookie")
      with (Headers.name_eqb n "Set-Cookie"). rewrite Hc.
    destruct (Headers.get n (responseHeaders up)); simpl; lia.
Qed.

Lemma copied_names_lowercase_merged_witness :
  forwarded chat = true
  /\ net answers_mixed_case (targetUrl CONFIG chat) (fetchOptions chat) =
     Normal mixed_case
  /\ status_ok (status mixed_case) = true
  /\ exists r,
       fst (run (mainHandler CONFIG chat) answers_mixed_case) = Normal r
       /\ Headers.values "X-Request-ID" (resp_headers mixed_case) =
          ["req_1"; "req_2"]
       /\ (length (Headers.values "X-Request-ID" (resp_headers r)) <= 1)%nat.
Proof.
  do 3 (split; [reflexivity|]).
  destruct (copied_names_lowercase_merged CONFIG answers_mixed_case chat
              mixed_case eq_refl eq_refl eq_refl) as (r & Hr & _ & Hm).
  exists r. split; [exact Hr|]. split; [reflexivity|].
  apply Hm. reflexivity.
Defined.

(** *** The order of effects *)

(** X12: a forwarded request produces its effects in this order: the
    request line if logging is on, then the one [fetch] call, then what
    the answer of [fetch] decides: nothing when it is an answer with an
    accepted status, which is copied back, and otherwise one
    [console.error] line with the target and the error caught (the
    RangeError of [new Response] or what [fetch] threw). *)
Theorem forward_effects_in_order (cfg : Config) (w : World) (request : Request) :
  forwarded request = true ->
  snd (run (mainHandler cfg request) w) =
  ((if logRequests cfg
    then [ConsoleLog
            ("[" ++ now_iso w ++ "] " ++ req_method request ++ " "
             ++ pathname (req_url request) ++ " -> " ++ targetUrl cfg request)]
    else [])
   ++ FetchCall (targetUrl cfg request) (fetchOptions request)
   :: match net w (targetUrl cfg request) (fetchOptions request) with
      | Normal up =>
          if status_ok (status up) then []
          else [ConsoleError
                  ("[ERROR] Failed to fetch " ++ targetUrl cfg request ++ ":")
                  (range_error (status up))]
      | Throw e =>
          [ConsoleError
             ("[ERROR] Failed to fetch " ++ targetUrl cfg request ++ ":") e]
      end)%list.
Proof.
  intros F.
  destruct (forward_outcomes cfg w request F)
    as [(up & N & S & ->)|[(up & N & S & ->)|(e & N & ->)]];
    rewrite ?on_error_run, N, ?S; cbn [snd]; unfold forward_trace;
    rewrite <- ?app_assoc; reflexivity.
Qed.

Lemma forward_effects_in_order_witness :
  forwarded chat = true
  /\ snd (run (mainHandler CONFIG chat) (answers rate_limited)) =
     [ConsoleLog (request_line clock chat (targetUrl CONFIG chat));
      FetchCall (targetUrl CONFIG chat) (fetchOptions chat)]
  /\ snd (run (mainHandler quiet chat) (fails refused)) =
     [FetchCall (targetUrl quiet chat) (fetchOptions chat);
      ConsoleError (error_line (targetUrl quiet chat)) refused].
Proof.
  split; [reflexivity|]. split.
  - apply (forward_effects_in_order CONFIG (answers rate_limited) chat);
      reflexivity.
  - apply (forward_effects_in_order quiet (fails refused) chat); reflexivity.
Defined.

(** X13: a forwarded request writes a [console.error] line exactly when it
    does not pass an upstream answer on, that is unless [fetch] answered
    with an accepted status. *)
Theorem error_line_iff_not_copied (cfg : Config) (w : World) (request : Request) :
  forwarded request = true ->
  error_lines (snd (run (mainHandler cfg request) w)) = [] <->
  exists up,
    net w (targetUrl cfg request) (fetchOptions request) = Normal up
    /\ status_ok (status up) = true.
Proof.
  intros F.
  assert (T : error_lines (forward_trace cfg w request) = [])
    by (unfold forward_trace; destruct (logRequests cfg); reflexivity).
  destruct (forward_outcomes cfg w request F)
    as [(up & N & S & ->)|[(up & N & S & ->)|(e & N & ->)]];
    rewrite ?on_error_run; cbn [snd]; rewrite ?error_lines_app, T.
  - split; eauto.
  - split; [discriminate|].
    intros (up' & N' & S'). rewrite N in N'. injection N' as <-. congruence.
  - split; [discriminate|].
    intros (up' & N' & _). congruence.
Qed.

Lemma error_line_iff_not_copied_witness :
  forwarded chat = true
  /\ error_lines (snd (run (mainHandler quiet chat) (answers rate_limited))) = [].
Proof.
  split; [reflexivity|].
  apply (error_line_iff_not_copied quiet (answers rate_limited) chat);
    [reflexivity|].
  exists rate_limited. split; reflexivity.
Defined.

End HandlerExtras.
